(** * Service control module: registration, signals, pause loop, shutdown

    A shallow embedding of [src/service-control.ts] (the closure returned by
    [createServiceController]) over an in-memory model of the Redis commands
    the controller sends, followed by the properties of the coordination
    state machine. *)

From Stdlib Require Import ZArith String Ascii List Lia.
From stdpp Require Import gmap strings list pretty.

Local Open Scope string_scope.
Local Open Scope Z_scope.
Local Open Scope list_scope.

(** ** JavaScript values the controller handles *)

Module Js.

(** Values produced by [JSON.parse] and consumed by [JSON.stringify]. An
    object is an association list in property-enumeration order; numbers are
    restricted to integers (pid is the only number the controller creates). *)
#[local] Unset Elimination Schemes.
Inductive json : Type :=
  | JNull
  | JBool (b : bool)
  | JNum (n : Z)
  | JStr (s : string)
  | JArr (items : list json)
  | JObj (fields : list (string * json)).
#[local] Set Elimination Schemes.

Definition obj : Type := list (string * json).

(** [o.k] for an own property. *)
Fixpoint obj_get (k : string) (o : obj) : option json :=
  match o with
  | [] => None
  | (k', v) :: rest => if String.eqb k k' then Some v else obj_get k rest
  end.

(** [o.k = v]: an existing property keeps its position, a new one is
    enumerated last. *)
Fixpoint obj_set (k : string) (v : json) (o : obj) : obj :=
  match o with
  | [] => [(k, v)]
  | (k', v') :: rest =>
      if String.eqb k k' then (k, v) :: rest else (k', v') :: obj_set k v rest
  end.

(** [{ ...base, k1: v1, ..., kn: vn }]. *)
Definition assign (base : obj) (props : list (string * json)) : obj :=
  fold_left (fun o kv => obj_set (fst kv) (snd kv) o) props base.

Fixpoint chars (s : string) : list json :=
  match s with
  | EmptyString => []
  | String c rest => JStr (String c EmptyString) :: chars rest
  end.

Definition indexed (l : list json) : obj :=
  imap (fun i v => (pretty i, v)) l.

(** The own enumerable properties copied by [{ ...v }]: those of an object,
    the indices of an array or of a string, none for the other values. *)
Definition spread (v : json) : obj :=
  match v with
  | JObj o => o
  | JArr l => indexed l
  | JStr s => indexed (chars s)
  | JNull | JBool _ | JNum _ => []
  end.

(** [raw ? ... : ...] and [!raw] on a value that is a string or [null]. *)
Definition truthy (raw : option string) : bool :=
  match raw with
  | None => false
  | Some s => negb (String.eqb s "")
  end.

(** [a ?? b]: [b] replaces [undefined] (a missing property) and [null]. *)
Definition nullish_or (a : option json) (b : json) : json :=
  match a with
  | None | Some JNull => b
  | Some v => v
  end.

Definition lower_ascii (c : ascii) : ascii :=
  let n := nat_of_ascii c in
  if ((65 <=? n) && (n <=? 90))%nat then ascii_of_nat (n + 32) else c.

(** [s.toLowerCase()] on the ASCII letters; the other bytes are kept (no
    character outside A-Z lower-cases to a letter of pause, resume or stop). *)
Fixpoint toLowerCase (s : string) : string :=
  match s with
  | EmptyString => EmptyString
  | String c rest => String (lower_ascii c) (toLowerCase rest)
  end.

End Js.
Export Js.

(** ** The Redis commands the controller sends *)

Module Redis.

Inductive entry : Type :=
  | EStr (value : string) (ttl : option Z)
  | ESet (members : gset string).

Inductive command : Type :=
  | GET (key : string)
  | SET (key value : string) (ex : option Z)
  | SADD (key member : string)
  | SREM (key member : string)
  | DEL (key : string).

Inductive reply : Type :=
  | RNil
  | RBulk (s : string)
  | RInt (n : Z)
  | ROk.

(** One command on the keyspace; [None] is an error reply (a command on a key
    of the wrong type, an expire time that is not positive). A TTL is kept
    with its value: expiry is a step of the store itself, taken between calls
    of the controller and not during one. *)
Definition exec (c : command) (db : gmap string entry)
  : option (reply * gmap string entry) :=
  match c with
  | GET k =>
      match db !! k with
      | None => Some (RNil, db)
      | Some (EStr v _) => Some (RBulk v, db)
      | Some (ESet _) => None
      end
  | SET k v None => Some (ROk, <[k := EStr v None]> db)
  | SET k v (Some t) =>
      if 0 <? t then Some (ROk, <[k := EStr v (Some t)]> db) else None
  | SADD k m =>
      match db !! k with
      | None => Some (RInt 1, <[k := ESet {[m]}]> db)
      | Some (ESet s) =>
          Some (RInt (if decide (m ∈ s) then 0 else 1), <[k := ESet ({[m]} ∪ s)]> db)
      | Some (EStr _ _) => None
      end
  | SREM k m =>
      match db !! k with
      | None => Some (RInt 0, db)
      | Some (ESet s) =>
          let s' := s ∖ {[m]} in
          Some (RInt (if decide (m ∈ s) then 1 else 0),
                if decide (s' = ∅) then delete k db else <[k := ESet s']> db)
      | Some (EStr _ _) => None
      end
  | DEL k =>
      Some (RInt (match db !! k with Some _ => 1 | None => 0 end), delete k db)
  end.

End Redis.
Export Redis.

(** ** Types of the module ([types.ts]) *)

Inductive ServiceState : Type := running | paused | stopping.

Definition state_name (s : ServiceState) : string :=
  match s with
  | running => "running"
  | paused => "paused"
  | stopping => "stopping"
  end.

Record ServiceControlConfig : Type := {
  prefix : option string;
  heartbeatTtl : option Z;
  pollMs : option Z
}.

Record ServiceControllerOptions : Type := {
  serviceName : string;
  appType : string;
  tags : option (list string);
  meta : option (list (string * json));
  config : option ServiceControlConfig
}.

Inductive SignalKind : Type := none | pause | resume | stop.

(** ** The world a controller runs in *)

Inductive level : Type := Debug | Info | Warn | Error.

Inductive event : Type :=
  | Cmd (c : command) (ok : bool)
  | Log (l : level) (message : string)
  | Sleep (ms : Z)
  | On (signal reason : string).

Record world : Type := World {
  db : gmap string entry;
  issued : nat;
  ticks : nat;
  trace : list event
}.

(** What the process and the network decide: which command (counted from the
    first one sent) is lost before it reaches the store, what the clock shows
    at each reading, the host name, pid and random suffix of the instance id,
    and the JSON codec of the runtime ([None] is a SyntaxError). *)
Record runtime : Type := {
  command_fails : nat -> bool;
  wall_clock : nat -> string;
  os_hostname : string;
  process_pid : N;
  random_suffix : string;
  JSON_parse : string -> option json;
  JSON_stringify : json -> string
}.

Inductive error : Type :=
  | StoreError (c : command)
  | TypeError.

(** How an [async] function ends; [Pending] is a promise that has not settled
    within the iterations allowed to the pause loop. *)
Inductive outcome (A : Type) : Type :=
  | Ok (a : A)
  | Throw (e : error)
  | Pending.
Arguments Ok {A} a.
Arguments Throw {A} e.
Arguments Pending {A}.

Definition M (A : Type) : Type := world -> world * outcome A.

Definition ret {A} (a : A) : M A := fun w => (w, Ok a).

Definition bind {A B} (m : M A) (k : A -> M B) : M B := fun w =>
  match m w with
  | (w1, Ok a) => k a w1
  | (w1, Throw e) => (w1, Throw e)
  | (w1, Pending) => (w1, Pending)
  end.

Definition throw {A} (e : error) : M A := fun w => (w, Throw e).

Declare Scope async_scope.
Delimit Scope async_scope with async.
Notation "'let!' x ':=' m 'in' k" := (bind m (fun x => k))
  (at level 10, x name, m at level 100, k at level 200,
   format "'[v' 'let!'  x  ':='  m  'in' '/' k ']'") : async_scope.
Notation "m ';;' k" := (bind m (fun _ => k))
  (at level 100, k at level 200, right associativity,
   format "'[v' m ';;' '/' k ']'") : async_scope.
Local Open Scope async_scope.

Definition when (b : bool) (m : M unit) : M unit :=
  if b then m else ret tt.

(** [try { body } catch (error) { handler } finally { fin }]. *)
Definition try_catch_finally (body : M unit) (handler : error -> M unit)
    (fin : M unit) : M unit := fun w =>
  match body w with
  | (w1, Ok tt) => fin w1
  | (w1, Throw e) =>
      match handler e w1 with
      | (w2, Ok tt) => fin w2
      | (w2, Throw e') =>
          match fin w2 with
          | (w3, Ok tt) => (w3, Throw e')
          | r => r
          end
      | (w2, Pending) => (w2, Pending)
      end
  | (w1, Pending) => (w1, Pending)
  end.

(** The world after event [e] was recorded. A log entry keeps its level and
    message, not its structured fields. *)
Definition logged (e : event) (w : world) : world :=
  {| db := db w; issued := issued w; ticks := ticks w; trace := trace w ++ [e] |}.

Definition emit (e : event) : M unit := fun w => (logged e w, Ok tt).

(** The world after the clock was read once more. *)
Definition ticked (w : world) : world :=
  {| db := db w; issued := issued w; ticks := S (ticks w); trace := trace w |}.

Definition logger_debug (message : string) : M unit := emit (Log Debug message).
Definition logger_info (message : string) : M unit := emit (Log Info message).
Definition logger_warn (message : string) : M unit := emit (Log Warn message).
Definition logger_error (message : string) : M unit := emit (Log Error message).

Definition process_on (signal reason : string) : M unit := emit (On signal reason).

Definition sleep (ms : Z) : M unit := emit (Sleep ms).

(** The world after command [c] was sent: the keyspace it leaves, one more
    command counted, its fate recorded. *)
Definition sent (c : command) (ok : bool) (d : gmap string entry) (w : world) : world :=
  {| db := d; issued := S (issued w); ticks := ticks w;
     trace := trace w ++ [Cmd c ok] |}.

(** What the other clients of the store do to the shared world while a call
    is suspended at an [await]. *)
Definition meanwhile (others : world -> world) : M unit :=
  fun w => (others w, Ok tt).

(** ** [createServiceController] *)

Section createServiceController.

Variable rt : runtime.
Variable options : ServiceControllerOptions.

(** [new Date().toISOString()]. *)
Definition now_iso : M string := fun w => (ticked w, Ok (wall_clock rt (ticks w))).

(** A command sent to the store: lost when the network says so, otherwise
    executed; an error reply rejects the promise. *)
Definition redis_call (c : command) : M reply := fun w =>
  if command_fails rt (issued w) then (sent c false (db w) w, Throw (StoreError c))
  else
    match exec c (db w) with
    | Some (r, d) => (sent c true d w, Ok r)
    | None => (sent c false (db w) w, Throw (StoreError c))
    end.

Definition redis_get (key : string) : M (option string) :=
  let! r := redis_call (GET key) in
  ret (match r with RBulk s => Some s | _ => None end).

Definition redis_set (key value : string) : M unit :=
  redis_call (SET key value None);; ret tt.

Definition redis_set_ex (key value : string) (seconds : Z) : M unit :=
  redis_call (SET key value (Some seconds));; ret tt.

Definition redis_sadd (key member : string) : M unit :=
  redis_call (SADD key member);; ret tt.

Definition redis_srem (key member : string) : M unit :=
  redis_call (SREM key member);; ret tt.

Definition redis_del (key : string) : M unit :=
  redis_call (DEL key);; ret tt.

(** The fields of [DEFAULT_CONFIG]. *)
Definition DEFAULT_prefix : string := "controlService:control".
Definition DEFAULT_heartbeatTtl : Z := 30.
Definition DEFAULT_pollMs : Z := 1000.

(** The fields of [finalConfig = { ...DEFAULT_CONFIG, ...config }]. *)
Definition final_prefix : string :=
  default DEFAULT_prefix (config options ≫= prefix).
Definition final_heartbeatTtl : Z :=
  default DEFAULT_heartbeatTtl (config options ≫= heartbeatTtl).
Definition final_pollMs : Z :=
  default DEFAULT_pollMs (config options ≫= pollMs).

Definition hostname : string := os_hostname rt.
Definition instanceId : string :=
  hostname +:+ "-" +:+ pretty (process_pid rt) +:+ "-" +:+ random_suffix rt.

Definition servicesSetKey : string := final_prefix +:+ ":services".
Definition instancesSetKey : string :=
  final_prefix +:+ ":service:" +:+ serviceName options +:+ ":instances".
Definition instanceKey : string :=
  final_prefix +:+ ":service:" +:+ serviceName options +:+ ":instance:" +:+ instanceId.
Definition stateKey : string := final_prefix +:+ ":state:" +:+ serviceName options.
Definition signalKey : string := final_prefix +:+ ":signal:" +:+ serviceName options.

(** [options.tags ?? []] and [options.meta ?? {}]. *)
Definition tags_value : json := JArr (JStr <$> default [] (tags options)).
Definition meta_value : json := JObj (default [] (meta options)).

Definition identity_props : list (string * json) :=
  [ ("serviceName", JStr (serviceName options));
    ("appType", JStr (appType options));
    ("instanceId", JStr instanceId);
    ("hostname", JStr hostname);
    ("pid", JNum (Z.of_N (process_pid rt))) ].

Definition getState : M ServiceState :=
  let! state := redis_get stateKey in
  if bool_decide (state = Some "paused") then ret paused
  else if bool_decide (state = Some "stopping") then ret stopping
  else ret running.

(** [try { payload = raw ? JSON.parse(raw) : {} } catch { payload = {} }]. *)
Definition parse_payload (raw : option string) : json :=
  if truthy raw then default (JObj []) (JSON_parse rt (default "" raw))
  else JObj [].

(** [payload.startedAt]: a TypeError on [null], [undefined] on the values that
    have no such property. *)
Definition payload_startedAt (payload : json) : M (option json) :=
  match payload with
  | JNull => throw TypeError
  | JObj o => ret (obj_get "startedAt" o)
  | JBool _ | JNum _ | JStr _ | JArr _ => ret None
  end.

Definition shutdown_body (reason : option string) : M unit :=
  redis_set stateKey "stopping";;
  let! raw := redis_get instanceKey in
  let payload := parse_payload raw in
  let! started := payload_startedAt payload in
  let! startedAt :=
    match started with
    | None | Some JNull => let! t := now_iso in ret (JStr t)
    | Some v => ret v
    end in
  let! lastSeen := now_iso in
  let body :=
    assign (spread payload)
      (identity_props ++
       [ ("startedAt", startedAt);
         ("lastSeen", JStr lastSeen);
         ("status", JStr "stopping");
         ("tags", tags_value);
         ("meta", meta_value);
         ("stopReason", JStr (default "manual" reason)) ]) in
  redis_set_ex instanceKey (JSON_stringify rt (JObj body)) 10;;
  redis_srem instancesSetKey instanceId.

Definition shutdown (reason : option string) : M unit :=
  try_catch_finally
    (shutdown_body reason)
    (fun _ => logger_error "Error during shutdown")
    (logger_info "Shutdown complete").

Definition register : M unit :=
  let! now := now_iso in
  let payload :=
    identity_props ++
    [ ("startedAt", JStr now);
      ("lastSeen", JStr now);
      ("status", JStr "running");
      ("tags", tags_value);
      ("meta", meta_value) ] in
  redis_sadd servicesSetKey (serviceName options);;
  redis_sadd instancesSetKey instanceId;;
  redis_set_ex instanceKey (JSON_stringify rt (JObj payload)) final_heartbeatTtl;;
  let! existingState := redis_get stateKey in
  when (negb (truthy existingState)) (redis_set stateKey "running");;
  let! pendingSignal := redis_get signalKey in
  when (bool_decide (existingState = Some "stopping")
        && negb (bool_decide (pendingSignal = Some "stop")))
    (redis_set stateKey "running";;
     logger_warn "Recovered from stale stopping state");;
  process_on "SIGINT" "SIGINT";;
  process_on "SIGTERM" "SIGTERM";;
  logger_info "Service registered".

Definition heartbeat (statusOverride : option ServiceState) : M unit :=
  let! now := now_iso in
  let! raw := redis_get instanceKey in
  let payload := parse_payload raw in
  let! started := payload_startedAt payload in
  let! status :=
    match statusOverride with
    | Some s => ret s
    | None => getState
    end in
  let body :=
    assign (spread payload)
      (identity_props ++
       [ ("startedAt", nullish_or started (JStr now));
         ("lastSeen", JStr now);
         ("status", JStr (state_name status));
         ("tags", tags_value);
         ("meta", meta_value) ]) in
  redis_set_ex instanceKey (JSON_stringify rt (JObj body)) final_heartbeatTtl.

Definition applySignal : M SignalKind :=
  let! signal := redis_get signalKey in
  if negb (truthy signal) then ret none
  else
    let normalized := toLowerCase (default "" signal) in
    if String.eqb normalized "pause" then
      redis_set stateKey "paused";;
      redis_del signalKey;;
      logger_warn "Pause signal applied";;
      ret pause
    else if String.eqb normalized "resume" then
      redis_set stateKey "running";;
      redis_del signalKey;;
      logger_warn "Resume signal applied";;
      ret resume
    else if String.eqb normalized "stop" then
      redis_set stateKey "stopping";;
      redis_del signalKey;;
      logger_warn "Stop signal applied";;
      ret stop
    else
      redis_del signalKey;;
      logger_warn "Unknown signal received";;
      ret none.

Definition is_stop (sig : SignalKind) : bool :=
  match sig with stop => true | _ => false end.
Definition is_state (a b : ServiceState) : bool :=
  match a, b with
  | running, running | paused, paused | stopping, stopping => true
  | _, _ => false
  end.

(** The [while (true)] of [waitIfPaused], run for at most [fuel] iterations. *)
Fixpoint pause_loop (fuel : nat) : M unit :=
  match fuel with
  | O => fun w => (w, Pending)
  | S fuel' =>
      heartbeat (Some paused);;
      let! sig := applySignal in
      let! state := getState in
      if is_stop sig || is_state state stopping then ret tt
      else if is_state state running then logger_info "Resumed from pause"
      else sleep final_pollMs;; pause_loop fuel'
  end.

Definition waitIfPaused (fuel : nat) : M unit :=
  applySignal;;
  let! state := getState in
  if negb (is_state state paused) then ret tt
  else
    logger_info "Service paused. Waiting for resume signal...";;
    pause_loop fuel.

(** [shouldStop], with what the other clients do between its two awaited
    calls. *)
Definition shouldStop_among (others : world -> world) : M bool :=
  let! sig := applySignal in
  meanwhile others;;
  let! state := getState in
  ret (is_stop sig || is_state state stopping).

(** [shouldStop] on a store that no other client touches during the call. *)
Definition shouldStop : M bool := shouldStop_among id.

End createServiceController.

(** ** A JSON codec to run the controller on concrete stores

    Compact output, integers, the escapes of the quote and the backslash;
    enough for the descriptors the controller writes. The properties below
    hold for every codec: this one serves the concrete scenarios. *)

Module Codec.

Definition dquote : ascii := ascii_of_nat 34.
Definition backslash : ascii := ascii_of_nat 92.

Fixpoint escape (s : string) : string :=
  match s with
  | EmptyString => EmptyString
  | String c rest =>
      if (Ascii.eqb c dquote || Ascii.eqb c backslash)%bool
      then String backslash (String c (escape rest))
      else String c (escape rest)
  end.

Definition quote (s : string) : string :=
  String dquote (escape s +:+ String dquote EmptyString).

Fixpoint stringify (v : json) : string :=
  match v with
  | JNull => "null"
  | JBool true => "true"
  | JBool false => "false"
  | JNum n => pretty n
  | JStr s => quote s
  | JArr l => "[" +:+ String.concat "," (map stringify l) +:+ "]"
  | JObj o =>
      "{" +:+ String.concat ","
        (map (fun kv => quote (fst kv) +:+ ":" +:+ stringify (snd kv)) o) +:+ "}"
  end.

Definition is_space (c : ascii) : bool :=
  let n := nat_of_ascii c in
  ((n =? 32) || (n =? 9) || (n =? 10) || (n =? 13))%nat.

Fixpoint skip_ws (s : string) : string :=
  match s with
  | String c rest => if is_space c then skip_ws rest else s
  | EmptyString => s
  end.

(** The characters of a string literal, after its opening quote. *)
Fixpoint parse_string_body (s : string) : option (string * string) :=
  match s with
  | EmptyString => None
  | String c rest =>
      if Ascii.eqb c dquote then Some (EmptyString, rest)
      else if Ascii.eqb c backslash then
        match rest with
        | String e rest' =>
            if (Ascii.eqb e dquote || Ascii.eqb e backslash)%bool then
              match parse_string_body rest' with
              | Some (b, t) => Some (String e b, t)
              | None => None
              end
            else None
        | EmptyString => None
        end
      else
        match parse_string_body rest with
        | Some (b, t) => Some (String c b, t)
        | None => None
        end
  end.

Definition digit_of (c : ascii) : option Z :=
  let n := nat_of_ascii c in
  if ((48 <=? n) && (n <=? 57))%nat then Some (Z.of_nat (n - 48)) else None.

Fixpoint parse_digits (s : string) (acc : Z) (seen : bool) : option (Z * string) :=
  match s with
  | String c rest =>
      match digit_of c with
      | Some d => parse_digits rest (10 * acc + d) true
      | None => if seen then Some (acc, s) else None
      end
  | EmptyString => if seen then Some (acc, s) else None
  end.

Definition parse_number (s : string) : option (json * string) :=
  match s with
  | String "-" rest =>
      match parse_digits rest 0 false with
      | Some (n, t) => Some (JNum (- n), t)
      | None => None
      end
  | _ =>
      match parse_digits s 0 false with
      | Some (n, t) => Some (JNum n, t)
      | None => None
      end
  end.

Fixpoint strip_prefix (p s : string) : option string :=
  match p, s with
  | EmptyString, _ => Some s
  | String a p', String b s' => if Ascii.eqb a b then strip_prefix p' s' else None
  | String _ _, EmptyString => None
  end.

Fixpoint parse_value (fuel : nat) (s : string) {struct fuel}
  : option (json * string) :=
  match fuel with
  | O => None
  | S f =>
      match skip_ws s with
      | EmptyString => None
      | String c rest as s' =>
          if Ascii.eqb c "{" then
            match skip_ws rest with
            | String "}" t => Some (JObj [], t)
            | _ =>
                match parse_members f rest with
                | Some (o, t) =>
                    Some (JObj (fold_left (fun acc kv => obj_set (fst kv) (snd kv) acc) o []), t)
                | None => None
                end
            end
          else if Ascii.eqb c "[" then
            match skip_ws rest with
            | String "]" t => Some (JArr [], t)
            | _ =>
                match parse_elements f rest with
                | Some (l, t) => Some (JArr l, t)
                | None => None
                end
            end
          else if Ascii.eqb c dquote then
            match parse_string_body rest with
            | Some (b, t) => Some (JStr b, t)
            | None => None
            end
          else
            match strip_prefix "null" s', strip_prefix "true" s', strip_prefix "false" s' with
            | Some t, _, _ => Some (JNull, t)
            | _, Some t, _ => Some (JBool true, t)
            | _, _, Some t => Some (JBool false, t)
            | _, _, _ => parse_number s'
            end
      end
  end
with parse_elements (fuel : nat) (s : string) {struct fuel}
  : option (list json * string) :=
  match fuel with
  | O => None
  | S f =>
      match parse_value f s with
      | Some (v, t) =>
          match skip_ws t with
          | String "," t' =>
              match parse_elements f t' with
              | Some (vs, t'') => Some (v :: vs, t'')
              | None => None
              end
          | String "]" t' => Some ([v], t')
          | _ => None
          end
      | None => None
      end
  end
with parse_members (fuel : nat) (s : string) {struct fuel}
  : option (list (string * json) * string) :=
  match fuel with
  | O => None
  | S f =>
      match skip_ws s with
      | String c rest =>
          if Ascii.eqb c dquote then
            match parse_string_body rest with
            | Some (k, t) =>
                match skip_ws t with
                | String ":" t1 =>
                    match parse_value f t1 with
                    | Some (v, t2) =>
                        match skip_ws t2 with
                        | String "," t3 =>
                            match parse_members f t3 with
                            | Some (o, t4) => Some ((k, v) :: o, t4)
                            | None => None
                            end
                        | String "}" t3 => Some ([(k, v)], t3)
                        | _ => None
                        end
                    | None => None
                    end
                | _ => None
                end
            | None => None
            end
          else None
      | EmptyString => None
      end
  end.

Definition parse (s : string) : option json :=
  match parse_value (2 * String.length s + 2) s with
  | Some (v, t) =>
      match skip_ws t with
      | EmptyString => Some v
      | String _ _ => None
      end
  | None => None
  end.

End Codec.

(** A process on a reliable network, and one whose [n]-th command is lost. *)
Definition steady : runtime := {|
  command_fails := fun _ => false;
  wall_clock := fun n => "2024-05-01T10:00:0" +:+ pretty n +:+ ".000Z";
  os_hostname := "worker-1";
  process_pid := 4242%N;
  random_suffix := "k3x9qa";
  JSON_parse := Codec.parse;
  JSON_stringify := Codec.stringify
|}.

Definition losing (n : nat) : runtime := {|
  command_fails := fun i => Nat.eqb i n;
  wall_clock := wall_clock steady;
  os_hostname := os_hostname steady;
  process_pid := process_pid steady;
  random_suffix := random_suffix steady;
  JSON_parse := Codec.parse;
  JSON_stringify := Codec.stringify
|}.

(** A second process, on another host. *)
Definition neighbour : runtime := {|
  command_fails := fun _ => false;
  wall_clock := wall_clock steady;
  os_hostname := "worker-2";
  process_pid := 977%N;
  random_suffix := "p0q7zd";
  JSON_parse := Codec.parse;
  JSON_stringify := Codec.stringify
|}.

Definition orders : ServiceControllerOptions := {|
  serviceName := "orders";
  appType := "worker";
  tags := Some ["eu"; "blue"];
  meta := Some [("version", JStr "1.4.2")];
  config := None
|}.

Definition empty_world : world :=
  {| db := ∅; issued := 0; ticks := 0; trace := [] |}.

Definition with_db (d : gmap string entry) : world :=
  {| db := d; issued := 0; ticks := 0; trace := [] |}.

(** * Properties *)

(** ** The key schema *)

Lemma append_inv_head (p a b : string) : p +:+ a = p +:+ b -> a = b.
Proof.
  induction p as [|c p IH]; simpl; intros H; [exact H|].
  injection H as H. auto.
Qed.

Ltac distinct_keys :=
  let H := fresh in
  intros H; unfold servicesSetKey, instancesSetKey, instanceKey, stateKey, signalKey in H;
  apply append_inv_head in H; simpl in H; discriminate H.

Section KeySchema.
Variable rt : runtime.
Variable options : ServiceControllerOptions.

Lemma state_ne_signal : stateKey options <> signalKey options.
Proof. distinct_keys. Qed.
Lemma services_ne_state : servicesSetKey options <> stateKey options.
Proof. distinct_keys. Qed.
Lemma services_ne_signal : servicesSetKey options <> signalKey options.
Proof. distinct_keys. Qed.
Lemma instances_ne_state : instancesSetKey options <> stateKey options.
Proof. distinct_keys. Qed.
Lemma instances_ne_signal : instancesSetKey options <> signalKey options.
Proof. distinct_keys. Qed.
Lemma instance_ne_state : instanceKey rt options <> stateKey options.
Proof. distinct_keys. Qed.
Lemma instance_ne_signal : instanceKey rt options <> signalKey options.
Proof. distinct_keys. Qed.
Lemma services_ne_instances : servicesSetKey options <> instancesSetKey options.
Proof. distinct_keys. Qed.
Lemma services_ne_instance : servicesSetKey options <> instanceKey rt options.
Proof. distinct_keys. Qed.

Lemma instances_ne_instance : instancesSetKey options <> instanceKey rt options.
Proof.
  intros H. unfold instancesSetKey, instanceKey in H.
  do 3 apply append_inv_head in H. simpl in H. discriminate H.
Qed.
End KeySchema.

(** ** Running a controller step by step *)

(** The events recorded between two worlds. *)
Definition since (w w' : world) : list event :=
  drop (length (trace w)) (trace w').

Lemma since_app w w' new : trace w' = trace w ++ new -> since w w' = new.
Proof. intros E. unfold since. rewrite E. apply drop_app_length. Qed.

Lemma bind_ok {A B} (m : M A) (k : A -> M B) w w1 a :
  m w = (w1, Ok a) -> bind m k w = k a w1.
Proof. intros E. unfold bind. now rewrite E. Qed.

Lemma bind_throw {A B} (m : M A) (k : A -> M B) w w1 e :
  m w = (w1, Throw e) -> bind m k w = (w1, Throw e).
Proof. intros E. unfold bind. now rewrite E. Qed.

Definition str_or_absent (e : option entry) : Prop :=
  match e with Some (ESet _) => False | _ => True end.
Definition set_or_absent (e : option entry) : Prop :=
  match e with Some (EStr _ _) => False | _ => True end.

(** What [GET] answers on an entry that is a string or absent. *)
Definition read (e : option entry) : option string :=
  match e with Some (EStr v _) => Some v | _ => None end.

(** The members of a set entry. *)
Definition members_of (e : option entry) : gset string :=
  match e with Some (ESet s) => s | _ => ∅ end.

Section Steps.
Variable rt : runtime.

(** No command sent from world [w] on is lost. *)
Definition reliable (w : world) : Prop :=
  forall i, (issued w <= i)%nat -> command_fails rt i = false.

Lemma reliable_now w : reliable w -> command_fails rt (issued w) = false.
Proof. intros H. apply H. lia. Qed.

Lemma reliable_later w w' :
  reliable w -> (issued w <= issued w')%nat -> reliable w'.
Proof. intros H Hle i Hi. apply H. lia. Qed.

Lemma redis_get_ok key w :
  command_fails rt (issued w) = false -> str_or_absent (db w !! key) ->
  redis_get rt key w = (sent (GET key) true (db w) w, Ok (read (db w !! key))).
Proof.
  intros Hf Ht. unfold redis_get, bind, redis_call. rewrite Hf. simpl.
  destruct (db w !! key) as [[v ttl|s]|]; simpl in *; [reflexivity|contradiction|reflexivity].
Qed.

Lemma redis_set_ok key value w :
  command_fails rt (issued w) = false ->
  redis_set rt key value w =
    (sent (SET key value None) true (<[key := EStr value None]> (db w)) w, Ok tt).
Proof. intros Hf. unfold redis_set, bind, redis_call. rewrite Hf. reflexivity. Qed.

Lemma redis_set_ex_ok key value seconds w :
  command_fails rt (issued w) = false -> 0 < seconds ->
  redis_set_ex rt key value seconds w =
    (sent (SET key value (Some seconds)) true
       (<[key := EStr value (Some seconds)]> (db w)) w, Ok tt).
Proof.
  intros Hf Hs. unfold redis_set_ex, bind, redis_call. rewrite Hf. simpl.
  apply Z.ltb_lt in Hs. now rewrite Hs.
Qed.

Lemma redis_del_ok key w :
  command_fails rt (issued w) = false ->
  redis_del rt key w = (sent (DEL key) true (delete key (db w)) w, Ok tt).
Proof. intros Hf. unfold redis_del, bind, redis_call. rewrite Hf. reflexivity. Qed.

(** The keyspace after a [SADD] or a [SREM] that succeeds. *)
Definition sadd_db (key member : string) (d : gmap string entry) : gmap string entry :=
  <[key := ESet ({[member]} ∪ members_of (d !! key))]> d.

Definition srem_db (key member : string) (d : gmap string entry) : gmap string entry :=
  match d !! key with
  | Some (ESet s) =>
      if decide (s ∖ {[member]} = ∅) then delete key d
      else <[key := ESet (s ∖ {[member]})]> d
  | _ => d
  end.

Lemma redis_sadd_ok key member w :
  command_fails rt (issued w) = false -> set_or_absent (db w !! key) ->
  redis_sadd rt key member w =
    (sent (SADD key member) true (sadd_db key member (db w)) w, Ok tt).
Proof.
  intros Hf Ht. unfold redis_sadd, bind, redis_call, sadd_db. rewrite Hf. simpl.
  destruct (db w !! key) as [[v ttl|s]|]; simpl in *; [contradiction|reflexivity|].
  now rewrite union_empty_r_L.
Qed.

Lemma redis_srem_ok key member w :
  command_fails rt (issued w) = false -> set_or_absent (db w !! key) ->
  redis_srem rt key member w =
    (sent (SREM key member) true (srem_db key member (db w)) w, Ok tt).
Proof.
  intros Hf Ht. unfold redis_srem, bind, redis_call, srem_db. rewrite Hf. simpl.
  destruct (db w !! key) as [[v ttl|s]|]; simpl in *; [contradiction|reflexivity|reflexivity].
Qed.

Lemma srem_db_not_member key member d :
  member ∉ members_of (srem_db key member d !! key).
Proof.
  unfold srem_db. destruct (d !! key) as [[v ttl|s]|] eqn:E.
  - rewrite E. simpl. apply not_elem_of_empty.
  - destruct (decide (s ∖ {[member]} = ∅)).
    + rewrite lookup_delete_eq. simpl. apply not_elem_of_empty.
    + rewrite lookup_insert_eq. simpl.
      intros [_ H]%elem_of_difference. apply H. now apply elem_of_singleton.
  - rewrite E. simpl. apply not_elem_of_empty.
Qed.

Lemma srem_db_other key member d k : k <> key -> srem_db key member d !! k = d !! k.
Proof.
  intros Hne. unfold srem_db. destruct (d !! key) as [[v ttl|s]|]; try reflexivity.
  destruct (decide (s ∖ {[member]} = ∅)).
  - now rewrite lookup_delete_ne.
  - now rewrite lookup_insert_ne.
Qed.

Lemma sadd_db_other key member d k : k <> key -> sadd_db key member d !! k = d !! k.
Proof. intros Hne. unfold sadd_db. now rewrite lookup_insert_ne. Qed.

End Steps.

(** ** Worlds and traces *)

Lemma db_sent c ok d w : db (sent c ok d w) = d.
Proof. reflexivity. Qed.
Lemma db_logged e w : db (logged e w) = db w.
Proof. reflexivity. Qed.
Lemma db_ticked w : db (ticked w) = db w.
Proof. reflexivity. Qed.
Lemma trace_sent c ok d w : trace (sent c ok d w) = trace w ++ [Cmd c ok].
Proof. reflexivity. Qed.
Lemma trace_logged e w : trace (logged e w) = trace w ++ [e].
Proof. reflexivity. Qed.
Lemma trace_ticked w : trace (ticked w) = trace w.
Proof. reflexivity. Qed.
Lemma issued_sent c ok d w : issued (sent c ok d w) = S (issued w).
Proof. reflexivity. Qed.
Lemma issued_logged e w : issued (logged e w) = issued w.
Proof. reflexivity. Qed.
Lemma issued_ticked w : issued (ticked w) = issued w.
Proof. reflexivity. Qed.

Create Rewrite HintDb world.
#[global] Hint Rewrite db_sent db_logged db_ticked trace_sent trace_logged trace_ticked
  issued_sent issued_logged issued_ticked : world.

Create HintDb keys.
#[global] Hint Resolve state_ne_signal services_ne_state services_ne_signal
  instances_ne_state instances_ne_signal instance_ne_state instance_ne_signal
  services_ne_instances services_ne_instance instances_ne_instance : keys.
#[global] Hint Extern 2 (_ <> _) => apply not_eq_sym : keys.

Ltac key_ne := solve [ auto 3 with keys ].

(** Lookups of a key no command of the path has written. *)
Ltac look :=
  repeat first
    [ rewrite lookup_insert_ne by key_ne
    | rewrite lookup_delete_ne by key_ne
    | rewrite sadd_db_other by key_ne
    | rewrite srem_db_other by key_ne ].
Ltac look_in H :=
  repeat first
    [ rewrite lookup_insert_ne in H by key_ne
    | rewrite lookup_delete_ne in H by key_ne
    | rewrite sadd_db_other in H by key_ne
    | rewrite srem_db_other in H by key_ne ].

(** The events of a path, once the final world is explicit. *)
Ltac events w :=
  match goal with
  | |- context [since w ?W] =>
      let H := fresh "Htrace" in
      eassert (H : trace W = trace w ++ _)
        by (autorewrite with world; rewrite <- ?app_assoc; reflexivity);
      rewrite (since_app _ _ _ H); cbn [app] in *
  end.


(** Send the next command of a sequence, on a reliable network. *)
Ltac rel Hrel := apply Hrel; autorewrite with world; lia.
Ltac send Hrel lem :=
  erewrite bind_ok; [ | apply lem; try (rel Hrel) ]; cbv beta.

(** ** Commands that may be lost: one rule per store operation *)

Section Rules.
Variable rt : runtime.
Context {B : Type}.
Variable Q : world * outcome B -> Prop.

Lemma bind_assoc {A A'} (m : M A) (f : A -> M A') (g : A' -> M B) w :
  bind (bind m f) g w = bind m (fun x => bind (f x) g) w.
Proof. unfold bind. destruct (m w) as [w1 [a|e|]]; reflexivity. Qed.

Lemma bind_now (k : string -> M B) w :
  bind (now_iso rt) k w = k (wall_clock rt (ticks w)) (ticked w).
Proof. reflexivity. Qed.

Lemma bind_emit e (k : unit -> M B) w : bind (emit e) k w = k tt (logged e w).
Proof. reflexivity. Qed.

Lemma rule_call c (k : reply -> M B) w :
  Q (sent c false (db w) w, Throw (StoreError c)) ->
  (forall r d, exec c (db w) = Some (r, d) -> Q (k r (sent c true d w))) ->
  Q (bind (redis_call rt c) k w).
Proof.
  intros Hfail Hok. unfold bind, redis_call.
  destruct (command_fails rt (issued w)); [exact Hfail|].
  destruct (exec c (db w)) as [[r d]|] eqn:E; [now apply Hok|exact Hfail].
Qed.

Lemma rule_get key (k : option string -> M B) w :
  Q (sent (GET key) false (db w) w, Throw (StoreError (GET key))) ->
  (str_or_absent (db w !! key) ->
   Q (k (read (db w !! key)) (sent (GET key) true (db w) w))) ->
  Q (bind (redis_get rt key) k w).
Proof.
  intros Hfail Hok. unfold redis_get. rewrite bind_assoc. apply rule_call; [exact Hfail|].
  intros r d E. simpl in E.
  destruct (db w !! key) as [[v ttl|s]|]; simplify_eq; now apply Hok.
Qed.

Lemma rule_set key value (k : unit -> M B) w :
  Q (sent (SET key value None) false (db w) w, Throw (StoreError (SET key value None))) ->
  Q (k tt (sent (SET key value None) true (<[key := EStr value None]> (db w)) w)) ->
  Q (bind (redis_set rt key value) k w).
Proof.
  intros Hfail Hok. unfold redis_set. rewrite bind_assoc. apply rule_call; [exact Hfail|].
  intros r d E. simpl in E. simplify_eq. exact Hok.
Qed.

Lemma rule_set_ex key value seconds (k : unit -> M B) w :
  Q (sent (SET key value (Some seconds)) false (db w) w,
     Throw (StoreError (SET key value (Some seconds)))) ->
  (0 < seconds ->
   Q (k tt (sent (SET key value (Some seconds)) true
              (<[key := EStr value (Some seconds)]> (db w)) w))) ->
  Q (bind (redis_set_ex rt key value seconds) k w).
Proof.
  intros Hfail Hok. unfold redis_set_ex. rewrite bind_assoc. apply rule_call; [exact Hfail|].
  intros r d E. simpl in E. destruct (Z.ltb_spec 0 seconds); simplify_eq. now apply Hok.
Qed.

Lemma rule_del key (k : unit -> M B) w :
  Q (sent (DEL key) false (db w) w, Throw (StoreError (DEL key))) ->
  Q (k tt (sent (DEL key) true (delete key (db w)) w)) ->
  Q (bind (redis_del rt key) k w).
Proof.
  intros Hfail Hok. unfold redis_del. rewrite bind_assoc. apply rule_call; [exact Hfail|].
  intros r d E. simpl in E. simplify_eq. exact Hok.
Qed.

Lemma rule_sadd key member (k : unit -> M B) w :
  Q (sent (SADD key member) false (db w) w, Throw (StoreError (SADD key member))) ->
  (set_or_absent (db w !! key) ->
   Q (k tt (sent (SADD key member) true (sadd_db key member (db w)) w))) ->
  Q (bind (redis_sadd rt key member) k w).
Proof.
  intros Hfail Hok. unfold redis_sadd. rewrite bind_assoc. apply rule_call; [exact Hfail|].
  intros r d E. simpl in E. unfold sadd_db in Hok.
  destruct (db w !! key) as [[v ttl|s]|]; simplify_eq; simpl in Hok.
  - now apply Hok.
  - rewrite union_empty_r_L in Hok. now apply Hok.
Qed.

Lemma rule_srem key member (k : unit -> M B) w :
  Q (sent (SREM key member) false (db w) w, Throw (StoreError (SREM key member))) ->
  (set_or_absent (db w !! key) ->
   Q (k tt (sent (SREM key member) true (srem_db key member (db w)) w))) ->
  Q (bind (redis_srem rt key member) k w).
Proof.
  intros Hfail Hok. unfold redis_srem. rewrite bind_assoc. apply rule_call; [exact Hfail|].
  intros r d E. simpl in E. unfold srem_db in Hok.
  destruct (db w !! key) as [[v ttl|s]|]; simplify_eq; now apply Hok.
Qed.

End Rules.

(** ** The state oracle *)

Section StateOracle.
Variable rt : runtime.
Variable options : ServiceControllerOptions.

(** The state [getState] reports for what the state key holds. *)
Definition state_read (e : option entry) : ServiceState :=
  if bool_decide (read e = Some "paused") then paused
  else if bool_decide (read e = Some "stopping") then stopping
  else running.

Lemma getState_ok w :
  command_fails rt (issued w) = false ->
  str_or_absent (db w !! stateKey options) ->
  getState rt options w =
    (sent (GET (stateKey options)) true (db w) w,
     Ok (state_read (db w !! stateKey options))).
Proof.
  intros Hf Ht. unfold getState.
  rewrite (bind_ok _ _ _ _ _ (redis_get_ok rt _ _ Hf Ht)).
  unfold state_read. repeat case_bool_decide; reflexivity.
Qed.

Lemma getState_db w : db (getState rt options w).1 = db w.
Proof.
  unfold getState, redis_get, bind, redis_call.
  destruct (command_fails rt (issued w)); [reflexivity|].
  simpl. destruct (db w !! stateKey options) as [[v ttl|s]|]; simpl;
    repeat case_bool_decide; reflexivity.
Qed.

(** C6: [getState] never modifies the store, so two consecutive calls over an
    unchanged store return the same state; when the state key is absent or
    holds a string other than running, paused and stopping, that state is
    running, returned normally. *)
Theorem getState_idempotent_defaults_to_running :
  (forall w, db (getState rt options w).1 = db w) /\
  (forall w,
     reliable rt w -> str_or_absent (db w !! stateKey options) ->
     exists st w1 w2,
       getState rt options w = (w1, Ok st) /\
       getState rt options w1 = (w2, Ok st) /\
       db w1 = db w /\ db w2 = db w /\
       (db w !! stateKey options = None -> st = running) /\
       (forall v ttl,
          db w !! stateKey options = Some (EStr v ttl) ->
          v <> "running" -> v <> "paused" -> v <> "stopping" -> st = running) /\
       (forall v ttl,
          db w !! stateKey options = Some (EStr v ttl) ->
          (v = "running" \/ v = "paused" \/ v = "stopping") -> state_name st = v)).
Proof.
  split; [apply getState_db|].
  intros w Hrel Ht.
  pose proof (getState_ok w (reliable_now rt w Hrel) Ht) as E1.
  set (w1 := sent (GET (stateKey options)) true (db w) w) in *.
  assert (Hrel1 : reliable rt w1) by (apply (reliable_later rt w); [assumption|simpl; lia]).
  pose proof (getState_ok w1 (reliable_now rt w1 Hrel1) Ht) as E2.
  eexists _, w1, _. split; [exact E1|]. split; [exact E2|].
  split; [reflexivity|]. split; [reflexivity|].
  unfold state_read. split; [|split].
  - intros ->. reflexivity.
  - intros v ttl -> Hr Hp Hs. simpl.
    repeat case_bool_decide; congruence.
  - intros v ttl -> [ -> | [ -> | -> ] ]; reflexivity.
Qed.

End StateOracle.

(** C6 on a store whose state key holds an unknown word. *)
Lemma getState_idempotent_defaults_to_running_witness :
  exists st w1 w2,
    getState steady orders (with_db {[ stateKey orders := EStr "halted" None ]}) = (w1, Ok st) /\
    getState steady orders w1 = (w2, Ok st) /\ st = running.
Proof.
  destruct (getState_idempotent_defaults_to_running steady orders) as [_ H].
  destruct (H (with_db {[ stateKey orders := EStr "halted" None ]}))
    as (st & w1 & w2 & E1 & E2 & _ & _ & _ & Hd & _).
  - intros i _. reflexivity.
  - vm_compute. exact I.
  - exists st, w1, w2. split; [exact E1|]. split; [exact E2|].
    apply (Hd "halted" None); [vm_compute; reflexivity|discriminate..].
Defined.
(** ** The signal channel *)

Definition signal_name (k : SignalKind) : string :=
  match k with
  | none => "none"
  | pause => "pause"
  | resume => "resume"
  | stop => "stop"
  end.

(** The service-wide state a recognized signal leads to. *)
Definition target_state (k : SignalKind) : ServiceState :=
  match k with
  | pause => paused
  | resume | none => running
  | stop => stopping
  end.

Definition applied_message (k : SignalKind) : string :=
  match k with
  | pause => "Pause signal applied"
  | resume => "Resume signal applied"
  | stop => "Stop signal applied"
  | none => "Unknown signal received"
  end.


(** The reads of [key] among recorded events. *)
Definition is_get (key : string) (e : event) : bool :=
  match e with
  | Cmd (GET k) _ => bool_decide (k = key)
  | _ => false
  end.

(** The commands that write [key] among recorded events. *)
Definition is_write (key : string) (e : event) : bool :=
  match e with
  | Cmd (SET k _ _) _ | Cmd (DEL k) _ | Cmd (SADD k _) _ | Cmd (SREM k _) _ =>
      bool_decide (k = key)
  | _ => false
  end.

Section SignalChannel.
Variable rt : runtime.
Variable options : ServiceControllerOptions.

(** What one [applySignal] does when no command is lost: nothing but the read
    on an absent or empty signal, the transition and the deletion on a
    recognized one, the deletion alone on any other. *)
Inductive applies (w : world) : SignalKind -> world -> Prop :=
  | applies_nothing :
      truthy (read (db w !! signalKey options)) = false ->
      applies w none (sent (GET (signalKey options)) true (db w) w)
  | applies_known s ttl k :
      db w !! signalKey options = Some (EStr s ttl) ->
      k <> none -> toLowerCase s = signal_name k ->
      let st := state_name (target_state k) in
      let d1 := <[stateKey options := EStr st None]> (db w) in
      let d2 := delete (signalKey options) d1 in
      applies w k
        (logged (Log Warn (applied_message k))
           (sent (DEL (signalKey options)) true d2
              (sent (SET (stateKey options) st None) true d1
                 (sent (GET (signalKey options)) true (db w) w))))
  | applies_unknown s ttl :
      db w !! signalKey options = Some (EStr s ttl) ->
      s <> "" ->
      toLowerCase s <> "pause" -> toLowerCase s <> "resume" -> toLowerCase s <> "stop" ->
      applies w none
        (logged (Log Warn "Unknown signal received")
           (sent (DEL (signalKey options)) true (delete (signalKey options) (db w))
              (sent (GET (signalKey options)) true (db w) w))).

Lemma applySignal_applies w :
  reliable rt w -> str_or_absent (db w !! signalKey options) ->
  exists sig w1, applySignal rt options w = (w1, Ok sig) /\ applies w sig w1.
Proof.
  intros Hrel Ht. unfold applySignal.
  send Hrel redis_get_ok; [|exact Ht].
  destruct (truthy (read (db w !! signalKey options))) eqn:Etr; cbn [negb].
  2:{ eexists _, _. split; [reflexivity|]. now constructor. }
  destruct (db w !! signalKey options) as [[s ttl|?]|] eqn:Es;
    [|contradiction|discriminate].
  cbn [read default from_option id].
  assert (Hne : s <> "") by (intros ->; discriminate).
  destruct (String.eqb_spec (toLowerCase s) "pause") as [Hp|Hp];
    [|destruct (String.eqb_spec (toLowerCase s) "resume") as [Hr|Hr];
      [|destruct (String.eqb_spec (toLowerCase s) "stop") as [Hs|Hs]]].
  1-3: send Hrel redis_set_ok; send Hrel redis_del_ok;
       eexists _, _; (split; [reflexivity|]).
  4: send Hrel redis_del_ok; eexists _, _; (split; [reflexivity|]).
  - now apply (applies_known w s ttl pause).
  - now apply (applies_known w s ttl resume).
  - now apply (applies_known w s ttl stop).
  - now apply (applies_unknown w s ttl).
Qed.

Lemma applies_issued w sig w1 : applies w sig w1 -> (issued w <= issued w1)%nat.
Proof. intros []; simpl; lia. Qed.

Lemma applies_state w sig w1 :
  applies w sig w1 ->
  db w1 !! stateKey options =
    match sig with
    | none => db w !! stateKey options
    | _ => Some (EStr (state_name (target_state sig)) None)
    end.
Proof.
  pose proof (state_ne_signal options) as Hne.
  intros [H|s ttl k Hs Hk Hl st d1 d2|s ttl Hs]; simpl.
  - reflexivity.
  - subst d2 d1 st. rewrite lookup_delete_ne, lookup_insert_eq by congruence.
    destruct k; congruence.
  - now rewrite lookup_delete_ne by congruence.
Qed.

Lemma applies_signal_reads w sig w1 :
  applies w sig w1 ->
  length (List.filter (is_get (signalKey options)) (since w w1)) = 1%nat.
Proof.
  pose proof (state_ne_signal options) as Hne.
  intros [H|s ttl k Hs Hk Hl st d1 d2|s ttl Hs].
  - erewrite since_app by reflexivity. simpl. now rewrite bool_decide_eq_true_2.
  - erewrite since_app by (simpl; rewrite <- !app_assoc; reflexivity).
    simpl. now rewrite bool_decide_eq_true_2.
  - erewrite since_app by (simpl; rewrite <- !app_assoc; reflexivity).
    simpl. now rewrite bool_decide_eq_true_2.
Qed.


(** C3: with one recognized signal value pending, the first [applySignal]
    writes the corresponding state, deletes the signal key and returns the
    applied kind; the second returns none and leaves the store as it is; the
    state key is written once over the two calls. *)
Theorem applySignal_consume_once w s ttl k :
  reliable rt w ->
  db w !! signalKey options = Some (EStr s ttl) ->
  k <> none -> toLowerCase s = signal_name k ->
  exists w1 w2,
    applySignal rt options w = (w1, Ok k) /\
    db w1 = delete (signalKey options)
              (<[stateKey options := EStr (state_name (target_state k)) None]> (db w)) /\
    applySignal rt options w1 = (w2, Ok none) /\
    db w2 = db w1 /\
    since w w2 =
      [ Cmd (GET (signalKey options)) true;
        Cmd (SET (stateKey options) (state_name (target_state k)) None) true;
        Cmd (DEL (signalKey options)) true;
        Log Warn (applied_message k);
        Cmd (GET (signalKey options)) true ].
Proof.
  intros Hrel Hs Hk Hl.
  destruct (applySignal_applies w Hrel) as (sig & w1 & E1 & A1); [now rewrite Hs|].
  destruct A1 as [H|s' ttl' k' Hs' Hk' Hl' st d1 d2|s' ttl' Hs' Hne Hp Hr Hst].
  - rewrite Hs in H. destruct s; [destruct k; discriminate|discriminate].
  - assert (s' = s) as -> by congruence.
    assert (k' = k) as ->.
    { rewrite Hl in Hl'. destruct k, k'; simpl in Hl'; congruence. }
    set (w1 := logged _ _) in *.
    assert (Hrel1 : reliable rt w1) by (apply (reliable_later rt w); [assumption|simpl; lia]).
    assert (Hsig1 : db w1 !! signalKey options = None) by apply lookup_delete_eq.
    assert (E2 : applySignal rt options w1 =
                 (sent (GET (signalKey options)) true (db w1) w1, Ok none)).
    { destruct (applySignal_applies w1 Hrel1) as (sig2 & w2 & E2 & A2);
        [now rewrite Hsig1|].
      destruct A2; [exact E2|congruence..]. }
    exists w1, (sent (GET (signalKey options)) true (db w1) w1).
    split; [exact E1|]. split; [reflexivity|]. split; [exact E2|]. split; [reflexivity|].
    apply since_app. simpl. now rewrite <- !app_assoc.
  - assert (s' = s) as -> by congruence.
    rewrite Hl in Hp, Hr, Hst. destruct k; simpl in *; congruence.
Qed.


Lemma applies_extends w sig w1 :
  applies w sig w1 -> trace w1 = trace w ++ since w w1.
Proof.
  intros [H|s ttl k Hs Hk Hl st d1 d2|s ttl Hs].
  - now erewrite since_app by reflexivity.
  - erewrite since_app by (simpl; rewrite <- !app_assoc; reflexivity).
    simpl. now rewrite <- !app_assoc.
  - erewrite since_app by (simpl; rewrite <- !app_assoc; reflexivity).
    simpl. now rewrite <- !app_assoc.
Qed.

Lemma applies_state_typed w sig w1 :
  applies w sig w1 -> str_or_absent (db w !! stateKey options) ->
  str_or_absent (db w1 !! stateKey options).
Proof.
  intros A Ht. rewrite (applies_state w sig w1 A). now destruct sig.
Qed.

(** [applySignal] then [getState], on a reliable network. *)
Lemma applySignal_getState w :
  reliable rt w ->
  str_or_absent (db w !! signalKey options) ->
  str_or_absent (db w !! stateKey options) ->
  exists sig w1,
    applySignal rt options w = (w1, Ok sig) /\ applies w sig w1 /\
    getState rt options w1 =
      (sent (GET (stateKey options)) true (db w1) w1,
       Ok (state_read (db w1 !! stateKey options))).
Proof.
  intros Hrel Hsig Hst.
  destruct (applySignal_applies w Hrel Hsig) as (sig & w1 & E1 & A1).
  exists sig, w1. split; [exact E1|]. split; [exact A1|].
  apply getState_ok; [|now apply (applies_state_typed w sig)].
  apply Hrel. now apply (applies_issued w sig).
Qed.

Lemma shouldStop_among_compose others w sig st w1 w2 :
  applySignal rt options w = (w1, Ok sig) ->
  getState rt options (others w1) = (w2, Ok st) ->
  shouldStop_among rt options others w = (w2, Ok (is_stop sig || is_state st stopping)).
Proof.
  intros E1 E2. unfold shouldStop_among.
  rewrite (bind_ok _ _ _ _ _ E1).
  rewrite (bind_ok (meanwhile others) _ w1 (others w1) tt eq_refl).
  now rewrite (bind_ok _ _ _ _ _ E2).
Qed.

Lemma shouldStop_compose w sig st w1 w2 :
  applySignal rt options w = (w1, Ok sig) ->
  getState rt options w1 = (w2, Ok st) ->
  shouldStop rt options w = (w2, Ok (is_stop sig || is_state st stopping)).
Proof. intros E1 E2. exact (shouldStop_among_compose id w sig st w1 w2 E1 E2). Qed.

(** C4: [shouldStop] applies the pending signal once, reads the state, and
    answers true exactly when the applied signal was stop or the state read
    is stopping. The applied signal counts by itself: whatever the other
    clients of the store do to it between the two calls, the answer is true
    exactly when the applied signal was stop or the state then read is
    stopping. *)
Theorem shouldStop_true_iff w :
  reliable rt w ->
  str_or_absent (db w !! signalKey options) ->
  str_or_absent (db w !! stateKey options) ->
  exists sig st w1 w2 b,
    applySignal rt options w = (w1, Ok sig) /\
    applies w sig w1 /\
    getState rt options w1 = (w2, Ok st) /\
    shouldStop rt options w = (w2, Ok b) /\
    (b = true <-> sig = stop \/ st = stopping) /\
    (b = true <->
       sig = stop \/ (sig = none /\ read (db w !! stateKey options) = Some "stopping")) /\
    length (List.filter (is_get (signalKey options)) (since w w2)) = 1%nat /\
    (forall others,
       reliable rt (others w1) ->
       str_or_absent (db (others w1) !! stateKey options) ->
       exists w3 st' b',
         getState rt options (others w1) = (w3, Ok st') /\
         st' = state_read (db (others w1) !! stateKey options) /\
         shouldStop_among rt options others w = (w3, Ok b') /\
         (b' = true <-> sig = stop \/ st' = stopping)).
Proof.
  intros Hrel Hsig Hst.
  destruct (applySignal_getState w Hrel Hsig Hst) as (sig & w1 & E1 & A1 & E2).
  set (st := state_read (db w1 !! stateKey options)) in *.
  exists sig, st, w1, (sent (GET (stateKey options)) true (db w1) w1),
    (is_stop sig || is_state st stopping).
  split; [exact E1|]. split; [exact A1|]. split; [exact E2|].
  split; [|split; [|split; [|split]]].
  - exact (shouldStop_compose w sig st w1 _ E1 E2).
  - destruct sig, st; simpl; intuition congruence.
  - subst st. rewrite (applies_state w sig w1 A1). unfold state_read.
    destruct sig; simpl; repeat case_bool_decide; simpl; intuition congruence.
  - erewrite since_app.
    2:{ simpl. rewrite (applies_extends w sig w1 A1), <- app_assoc. reflexivity. }
    rewrite List.filter_app, length_app, (applies_signal_reads w sig w1 A1).
    simpl. rewrite bool_decide_eq_false_2; [reflexivity|apply state_ne_signal].
  - intros others Hrel' Hst'.
    pose proof (getState_ok rt options (others w1) (reliable_now rt _ Hrel') Hst') as E3.
    eexists _, _, _. split; [exact E3|]. split; [reflexivity|].
    split; [exact (shouldStop_among_compose others w sig _ w1 _ E1 E3)|].
    destruct sig, (state_read (db (others w1) !! stateKey options));
      simpl; intuition congruence.
Qed.

End SignalChannel.

(** C3 on a store where the operator wrote PAUSE. *)
Lemma applySignal_consume_once_witness :
  exists w1 w2,
    applySignal steady orders (with_db {[ signalKey orders := EStr "PAUSE" None ]})
      = (w1, Ok pause) /\
    db w1 !! stateKey orders = Some (EStr "paused" None) /\
    db w1 !! signalKey orders = None /\
    applySignal steady orders w1 = (w2, Ok none) /\
    db w2 = db w1.
Proof.
  destruct (applySignal_consume_once steady orders
              (with_db {[ signalKey orders := EStr "PAUSE" None ]}) "PAUSE" None pause)
    as (w1 & w2 & E1 & D1 & E2 & D2 & _).
  - intros i _. reflexivity.
  - vm_compute. reflexivity.
  - discriminate.
  - reflexivity.
  - exists w1, w2. split; [exact E1|].
    split; [rewrite D1; vm_compute; reflexivity|].
    split; [rewrite D1; apply lookup_delete_eq|].
    split; [exact E2|exact D2].
Defined.

(** C4 on a store whose operator wrote stop: the instance applies it, a
    second instance registers in the meantime and recovers the state to
    running, and the answer is true all the same. *)
Lemma shouldStop_true_iff_witness :
  exists w3,
    shouldStop_among steady orders (fun w => (register neighbour orders w).1)
      (with_db {[ stateKey orders := EStr "running" None;
                  signalKey orders := EStr "stop" None ]}) = (w3, Ok true) /\
    db w3 !! stateKey orders = Some (EStr "running" None).
Proof.
  destruct (shouldStop_true_iff steady orders
              (with_db {[ stateKey orders := EStr "running" None;
                          signalKey orders := EStr "stop" None ]}))
    as (sig & st & w1 & w2 & b & E1 & _ & _ & _ & _ & _ & _ & H).
  - intros i _. reflexivity.
  - vm_compute. exact I.
  - vm_compute. exact I.
  - assert (Hw1 : w1 = (applySignal steady orders
                          (with_db {[ stateKey orders := EStr "running" None;
                                      signalKey orders := EStr "stop" None ]})).1)
      by now rewrite E1.
    destruct (H (fun w => (register neighbour orders w).1))
      as (w3 & st' & b' & _ & _ & E & _).
    + intros i _. reflexivity.
    + rewrite Hw1. vm_compute. exact I.
    + assert (Hw3 : w3 = (shouldStop_among steady orders
                            (fun w => (register neighbour orders w).1)
                            (with_db {[ stateKey orders := EStr "running" None;
                                        signalKey orders := EStr "stop" None ]})).1)
        by now rewrite E.
      exists w3. split.
      * rewrite E. f_equal. f_equal. destruct b'; [reflexivity|].
        vm_compute in E. injection E as _ E. discriminate E.
      * rewrite Hw3. vm_compute. reflexivity.
Defined.
(** ** The control loop *)

(** The key a command addresses. *)
Definition key_of (c : command) : string :=
  match c with
  | GET k | SET k _ _ | SADD k _ | SREM k _ | DEL k => k
  end.

Section ControlLoop.
Variable rt : runtime.
Variable options : ServiceControllerOptions.

(** Whenever the state read after the first [applySignal] is not paused,
    [waitIfPaused] returns there, whatever the iterations allowed. *)
Lemma waitIfPaused_hot_path fuel w sig st w1 w2 :
  applySignal rt options w = (w1, Ok sig) ->
  getState rt options w1 = (w2, Ok st) ->
  st <> paused ->
  waitIfPaused rt options fuel w = (w2, Ok tt).
Proof.
  intros E1 E2 Hst. unfold waitIfPaused.
  rewrite (bind_ok _ _ _ _ _ E1), (bind_ok _ _ _ _ _ E2).
  destruct st; [reflexivity|congruence|reflexivity].
Qed.

(** C5: with the state paused and a stop signal pending, [waitIfPaused]
    returns without entering the pause loop: the only events are the signal
    application and the state read (no heartbeat, no sleep); the state is
    then stopping, the signal is gone and [shouldStop] answers true. More
    generally it returns at once whenever the state read after the first
    [applySignal] is not paused. *)
Theorem waitIfPaused_stop_while_paused :
  (forall fuel w s ttl ttl',
     reliable rt w ->
     db w !! stateKey options = Some (EStr "paused" ttl) ->
     db w !! signalKey options = Some (EStr s ttl') ->
     toLowerCase s = "stop" ->
     exists w1 w2,
       waitIfPaused rt options fuel w = (w1, Ok tt) /\
       since w w1 =
         [ Cmd (GET (signalKey options)) true;
           Cmd (SET (stateKey options) "stopping" None) true;
           Cmd (DEL (signalKey options)) true;
           Log Warn "Stop signal applied";
           Cmd (GET (stateKey options)) true ] /\
       (forall ms, ~ In (Sleep ms) (since w w1)) /\
       (forall c ok, In (Cmd c ok) (since w w1) -> key_of c <> instanceKey rt options) /\
       db w1 !! stateKey options = Some (EStr "stopping" None) /\
       db w1 !! signalKey options = None /\
       shouldStop rt options w1 = (w2, Ok true)) /\
  (forall fuel w sig st w1 w2,
     applySignal rt options w = (w1, Ok sig) ->
     getState rt options w1 = (w2, Ok st) ->
     st <> paused ->
     waitIfPaused rt options fuel w = (w2, Ok tt)).
Proof.
  split; [|apply waitIfPaused_hot_path].
  intros fuel w s ttl ttl' Hrel Hst Hsig Hlow.
  pose proof (state_ne_signal options) as Hne.
  destruct (applySignal_getState rt options w Hrel) as (sig & w1 & E1 & A1 & E2);
    [now rewrite Hsig|now rewrite Hst|].
  destruct A1 as [H|s' ttl1 k Hs Hk Hl st d1 d2|s' ttl1 Hs Hn Hp Hr Hstop].
  { rewrite Hsig in H. destruct s; discriminate. }
  2:{ congruence. }
  assert (s' = s) as -> by congruence.
  assert (k = stop) as ->.
  { rewrite Hlow in Hl. destruct k; simpl in Hl; congruence. }
  set (w1 := logged _ _) in *.
  set (w2 := sent (GET (stateKey options)) true (db w1) w1) in *.
  assert (Hs1 : db w1 !! stateKey options = Some (EStr "stopping" None)).
  { subst w1 d2 d1 st. simpl. now rewrite lookup_delete_ne, lookup_insert_eq by congruence. }
  assert (Hg1 : db w1 !! signalKey options = None) by apply lookup_delete_eq.
  rewrite Hs1 in E2. change (state_read _) with stopping in E2.
  assert (Hrel2 : reliable rt w2) by (apply (reliable_later rt w); [assumption|simpl; lia]).
  destruct (applySignal_getState rt options w2 Hrel2) as (sig3 & w3 & E3 & A3 & E4);
    [change (db w2) with (db w1); now rewrite Hg1
    |change (db w2) with (db w1); now rewrite Hs1|].
  pose proof (shouldStop_compose rt options w2 sig3 _ w3 _ E3 E4) as E5.
  assert (Hsince : since w w2 =
         [ Cmd (GET (signalKey options)) true;
           Cmd (SET (stateKey options) "stopping" None) true;
           Cmd (DEL (signalKey options)) true;
           Log Warn "Stop signal applied";
           Cmd (GET (stateKey options)) true ]).
  { apply since_app. simpl. now rewrite <- !app_assoc. }
  eexists w2, _. split; [|split; [exact Hsince|split; [|split; [|split; [|split]]]]].
  - apply (waitIfPaused_hot_path fuel w stop stopping w1 w2 E1 E2). discriminate.
  - intros ms. rewrite Hsince. cbn [In]. intuition discriminate.
  - intros c ok. rewrite Hsince. cbn [In].
    pose proof (instance_ne_state rt options). pose proof (instance_ne_signal rt options).
    intros [H1|[H1|[H1|[H1|[H1|[]]]]]]; try discriminate; injection H1 as <- _; cbn [key_of]; congruence.
  - exact Hs1.
  - exact Hg1.
  - rewrite E5. f_equal. f_equal.
    destruct A3 as [H|? ? ? Hs3|? ? Hs3];
      [|change (db w2) with (db w1) in Hs3; congruence..].
    change (db (sent _ _ (db w2) w2)) with (db w1). now rewrite Hs1.
Qed.

End ControlLoop.

(** C5 on a paused service whose operator wrote stop, with no iteration of the
    pause loop allowed. *)
Lemma waitIfPaused_stop_while_paused_witness :
  exists w1 w2,
    waitIfPaused steady orders 0
      (with_db {[ stateKey orders := EStr "paused" None;
                  signalKey orders := EStr "stop" None ]}) = (w1, Ok tt) /\
    db w1 !! stateKey orders = Some (EStr "stopping" None) /\
    db w1 !! signalKey orders = None /\
    shouldStop steady orders w1 = (w2, Ok true).
Proof.
  destruct (waitIfPaused_stop_while_paused steady orders) as [H _].
  destruct (H 0%nat
              (with_db {[ stateKey orders := EStr "paused" None;
                          signalKey orders := EStr "stop" None ]})
              "stop" None None)
    as (w1 & w2 & E1 & _ & _ & _ & S1 & G1 & E2).
  - intros i _. reflexivity.
  - vm_compute. reflexivity.
  - vm_compute. reflexivity.
  - reflexivity.
  - exists w1, w2. auto.
Defined.

(** ** Registration *)

Section Registry.
Variable rt : runtime.
Variable options : ServiceControllerOptions.

(** The state key is absent or holds the empty string: what [!existingState]
    accepts. *)
Definition state_unset (d : gmap string entry) : Prop :=
  d !! stateKey options = None \/ exists ttl, d !! stateKey options = Some (EStr "" ttl).

(** A stopping state with no pending signal of value stop: what stale-state
    recovery accepts. *)
Definition stale_stopping (d : gmap string entry) : Prop :=
  (exists ttl, d !! stateKey options = Some (EStr "stopping" ttl)) /\
  str_or_absent (d !! signalKey options) /\
  read (d !! signalKey options) <> Some "stop".

Lemma unset_of_falsy d :
  str_or_absent (d !! stateKey options) ->
  truthy (read (d !! stateKey options)) = false -> state_unset d.
Proof.
  unfold state_unset. destruct (d !! stateKey options) as [[v ttl|s]|]; simpl; intros T H.
  - right. exists ttl. destruct v; [reflexivity|discriminate].
  - contradiction.
  - now left.
Qed.

Lemma stale_of_guard d :
  str_or_absent (d !! stateKey options) ->
  str_or_absent (d !! signalKey options) ->
  bool_decide (read (d !! stateKey options) = Some "stopping")
    && negb (bool_decide (read (d !! signalKey options) = Some "stop")) = true ->
  stale_stopping d.
Proof.
  intros T1 T2 [H1 H2]%andb_prop. apply bool_decide_eq_true_1 in H1.
  apply negb_true_iff, bool_decide_eq_false_1 in H2.
  split; [|split; assumption].
  destruct (d !! stateKey options) as [[v ttl|s]|]; simpl in *; simplify_eq. now exists ttl.
Qed.

(** What every run of [register] satisfies, lost commands included. *)
Definition register_frame (w : world) (res : world * outcome unit) : Prop :=
  trace res.1 = trace w ++ since w res.1 /\
  db res.1 !! signalKey options = db w !! signalKey options /\
  Forall (fun e => is_write (signalKey options) e = false) (since w res.1) /\
  Forall (fun e =>
            is_write (stateKey options) e = true ->
            (exists ok, e = Cmd (SET (stateKey options) "running" None) ok) /\
            (state_unset (db w) \/ stale_stopping (db w)))
         (since w res.1).

Lemma bind_ret {A B} (a : A) (k : A -> M B) w : bind (ret a) k w = k a w.
Proof. reflexivity. Qed.

Ltac not_that_key Hw :=
  match type of Hw with
  | bool_decide (?a = ?b) = true =>
      exfalso; apply bool_decide_eq_true_1 in Hw;
      assert (a <> b) by key_ne; contradiction
  end.

Ltac frame_leaf w :=
  solve
  [ unfold register_frame; cbn [fst snd]; events w;
    split; [assumption|]; split; [autorewrite with world; look; reflexivity|]; split;
    [ repeat first [apply Forall_nil_2 | apply Forall_cons_2]; cbn [is_write];
      first [reflexivity | apply bool_decide_eq_false_2; key_ne]
    | repeat first [apply Forall_nil_2 | apply Forall_cons_2]; cbn [is_write]; intros Hw;
      first
        [ discriminate Hw
        | not_that_key Hw
        | split; [eexists; reflexivity | first [left; assumption | right; assumption]] ] ] ].

Lemma register_frame_holds w : register_frame w (register rt options w).
Proof.
  unfold register. rewrite bind_now.
  set (blob := JSON_stringify rt _).
  apply rule_sadd; [frame_leaf w|intros T1; cbv beta].
  apply rule_sadd; [frame_leaf w|intros T2; cbv beta].
  apply rule_set_ex; [frame_leaf w|intros Httl; cbv beta].
  apply rule_get; [frame_leaf w|intros T3; cbv beta].
  autorewrite with world in T3 |- *. look_in T3. look.
  assert (Hinit : truthy (read (db w !! stateKey options)) = false -> state_unset (db w))
    by (apply unset_of_falsy; exact T3).
  destruct (truthy (read (db w !! stateKey options))); cbn [negb when].
  - rewrite bind_ret.
    apply rule_get; [frame_leaf w|intros T4; cbv beta].
    autorewrite with world in T4 |- *. look_in T4. look.
    pose proof (stale_of_guard (db w) T3 T4) as Hstale.
    destruct (_ && _); cbn [when].
    + specialize (Hstale eq_refl). rewrite bind_assoc.
      apply rule_set; [frame_leaf w|]. cbv beta.
      unfold logger_warn, process_on, logger_info. rewrite !bind_emit. unfold emit.
      frame_leaf w.
    + rewrite bind_ret. unfold process_on, logger_info. rewrite !bind_emit. unfold emit.
      frame_leaf w.
  - specialize (Hinit eq_refl).
    apply rule_set; [frame_leaf w|].
    apply rule_get; [frame_leaf w|intros T4; cbv beta].
    autorewrite with world in T4 |- *. look_in T4. look.
    pose proof (stale_of_guard (db w) T3 T4) as Hstale.
    destruct (_ && _); cbn [when].
    + specialize (Hstale eq_refl). rewrite bind_assoc.
      apply rule_set; [frame_leaf w|]. cbv beta.
      unfold logger_warn, process_on, logger_info. rewrite !bind_emit. unfold emit.
      frame_leaf w.
    + rewrite bind_ret. unfold process_on, logger_info. rewrite !bind_emit. unfold emit.
      frame_leaf w.
Qed.


(** Stale-state recovery fires: the state read is stopping and the signal
    read is not the exact word stop. *)
Definition recovery_fires (d : gmap string entry) : bool :=
  bool_decide (read (d !! stateKey options) = Some "stopping")
  && negb (bool_decide (read (d !! signalKey options) = Some "stop")).

(** The descriptor [register] writes at clock reading [now]. *)
Definition initial_descriptor (now : string) : obj :=
  identity_props rt options ++
  [ ("startedAt", JStr now);
    ("lastSeen", JStr now);
    ("status", JStr "running");
    ("tags", tags_value options);
    ("meta", meta_value options) ].

(** The run of [register] when no command is lost and the keys hold values
    of the right type. *)
Lemma register_ok w :
  reliable rt w ->
  set_or_absent (db w !! servicesSetKey options) ->
  set_or_absent (db w !! instancesSetKey options) ->
  0 < final_heartbeatTtl options ->
  str_or_absent (db w !! stateKey options) ->
  str_or_absent (db w !! signalKey options) ->
  let blob := JSON_stringify rt (JObj (initial_descriptor (wall_clock rt (ticks w)))) in
  let unset := negb (truthy (read (db w !! stateKey options))) in
  exists w',
    register rt options w = (w', Ok tt) /\
    (issued w <= issued w')%nat /\
    db w' !! stateKey options =
      (if unset || recovery_fires (db w) then Some (EStr "running" None)
       else db w !! stateKey options) /\
    db w' !! instanceKey rt options =
      Some (EStr blob (Some (final_heartbeatTtl options))) /\
    since w w' =
      [ Cmd (SADD (servicesSetKey options) (serviceName options)) true;
        Cmd (SADD (instancesSetKey options) (instanceId rt)) true;
        Cmd (SET (instanceKey rt options) blob (Some (final_heartbeatTtl options))) true;
        Cmd (GET (stateKey options)) true ] ++
      (if unset then [Cmd (SET (stateKey options) "running" None) true] else []) ++
      [ Cmd (GET (signalKey options)) true ] ++
      (if recovery_fires (db w)
       then [ Cmd (SET (stateKey options) "running" None) true;
              Log Warn "Recovered from stale stopping state" ]
       else []) ++
      [ On "SIGINT" "SIGINT"; On "SIGTERM" "SIGTERM"; Log Info "Service registered" ].
Proof.
  intros Hrel T1 T2 Httl T3 T4 blob unset. subst unset. unfold register, recovery_fires.
  rewrite bind_now. fold (initial_descriptor (wall_clock rt (ticks w))). fold blob.
  send Hrel redis_sadd_ok; [|exact T1].
  send Hrel redis_sadd_ok; [|autorewrite with world; look; exact T2].
  send Hrel redis_set_ex_ok; [|exact Httl].
  send Hrel redis_get_ok; [|autorewrite with world; look; exact T3].
  autorewrite with world. look.
  destruct (truthy (read (db w !! stateKey options))) eqn:Ex; cbn [negb when orb].
  - rewrite bind_ret.
    send Hrel redis_get_ok; [|autorewrite with world; look; exact T4].
    autorewrite with world. look.
    destruct (_ && _); cbn [when].
    + rewrite bind_assoc. send Hrel redis_set_ok.
      eexists. split; [reflexivity|].
      unfold logger_warn, process_on, logger_info, emit, bind.
      autorewrite with world. split; [lia|]. split; [|split].
      * now rewrite lookup_insert_eq.
      * look. now rewrite lookup_insert_eq.
      * apply since_app. autorewrite with world. now rewrite <- !app_assoc.
    + rewrite bind_ret.
      eexists. split; [reflexivity|].
      unfold logger_warn, process_on, logger_info, emit, bind.
      autorewrite with world. split; [lia|]. split; [|split].
      * now look.
      * now rewrite lookup_insert_eq.
      * apply since_app. autorewrite with world. now rewrite <- !app_assoc.
  - send Hrel redis_set_ok.
    send Hrel redis_get_ok; [|autorewrite with world; look; exact T4].
    autorewrite with world. look.
    destruct (_ && _); cbn [when].
    + rewrite bind_assoc. send Hrel redis_set_ok.
      eexists. split; [reflexivity|].
      unfold logger_warn, process_on, logger_info, emit, bind.
      autorewrite with world. split; [lia|]. split; [|split].
      * now rewrite lookup_insert_eq.
      * look. now rewrite lookup_insert_eq.
      * apply since_app. autorewrite with world. now rewrite <- !app_assoc.
    + rewrite bind_ret.
      eexists. split; [reflexivity|].
      unfold logger_warn, process_on, logger_info, emit, bind.
      autorewrite with world. split; [lia|]. split; [|split].
      * now rewrite lookup_insert_eq.
      * look. now rewrite lookup_insert_eq.
      * apply since_app. autorewrite with world. now rewrite <- !app_assoc.
Qed.

End Registry.

Section RegistryLaws.
Variable rt : runtime.
Variable options : ServiceControllerOptions.

(** C1: when the state read during registration is stopping, [register]
    overwrites it with running (and warns) if no signal is pending, or more
    generally if the pending signal is not the exact word stop; it leaves the
    state stopping if the pending signal has the exact value stop. *)
Theorem register_stale_recovery w ttl :
  reliable rt w ->
  set_or_absent (db w !! servicesSetKey options) ->
  set_or_absent (db w !! instancesSetKey options) ->
  0 < final_heartbeatTtl options ->
  db w !! stateKey options = Some (EStr "stopping" ttl) ->
  (db w !! signalKey options = None ->
   exists w',
     register rt options w = (w', Ok tt) /\
     db w' !! stateKey options = Some (EStr "running" None) /\
     In (Log Warn "Recovered from stale stopping state") (since w w')) /\
  (forall s ttl',
     db w !! signalKey options = Some (EStr s ttl') -> s <> "stop" ->
     exists w',
       register rt options w = (w', Ok tt) /\
       db w' !! stateKey options = Some (EStr "running" None) /\
       In (Log Warn "Recovered from stale stopping state") (since w w')) /\
  (forall ttl',
     db w !! signalKey options = Some (EStr "stop" ttl') ->
     exists w',
       register rt options w = (w', Ok tt) /\
       db w' !! stateKey options = Some (EStr "stopping" ttl) /\
       ~ In (Log Warn "Recovered from stale stopping state") (since w w')).
Proof.
  intros Hrel T1 T2 Httl Hst.
  assert (Hrun : forall sig,
            db w !! signalKey options = sig -> str_or_absent sig ->
            exists w',
              register rt options w = (w', Ok tt) /\
              db w' !! stateKey options =
                (if recovery_fires options (db w) then Some (EStr "running" None)
                 else Some (EStr "stopping" ttl)) /\
              (if recovery_fires options (db w)
               then In (Log Warn "Recovered from stale stopping state") (since w w')
               else ~ In (Log Warn "Recovered from stale stopping state") (since w w'))).
  { intros sig Hsig T4.
    destruct (register_ok rt options w Hrel T1 T2 Httl) as (w' & E & _ & S & _ & Hev);
      [now rewrite Hst|now rewrite Hsig|].
    exists w'. split; [exact E|]. rewrite Hst in S, Hev. cbn [read truthy String.eqb negb orb] in S, Hev.
    split; [rewrite S; now destruct (recovery_fires options (db w))|].
    rewrite Hev. destruct (recovery_fires options (db w)); cbn [app In];
      [intuition|intuition discriminate]. }
  assert (Hfire : forall sig, db w !! signalKey options = sig -> 
            recovery_fires options (db w) = negb (bool_decide (read sig = Some "stop"))).
  { intros sig <-. unfold recovery_fires. rewrite Hst. reflexivity. }
  split; [|split].
  - intros Hsig. destruct (Hrun None Hsig I) as (w' & E & S & L).
    rewrite (Hfire None Hsig) in S, L. exists w'. auto.
  - intros s ttl' Hsig Hne. destruct (Hrun _ Hsig I) as (w' & E & S & L).
    rewrite (Hfire _ Hsig) in S, L. cbn [read] in S, L.
    rewrite bool_decide_eq_false_2 in S, L by congruence. exists w'. auto.
  - intros ttl' Hsig. destruct (Hrun _ Hsig I) as (w' & E & S & L).
    rewrite (Hfire _ Hsig) in S, L. exists w'. auto.
Qed.


(** C9, amended: [register] never writes the signal key; it writes the state
    key only with the value running, and only when the key was absent or held
    the empty string, or when stale-state recovery fires; on a state running
    or paused it leaves the key as it is, so that [getState] still reports
    that state, while the descriptor it stores has status running. *)
Theorem register_frame_state_signal :
  (forall w,
     db (register rt options w).1 !! signalKey options = db w !! signalKey options /\
     Forall (fun e => is_write (signalKey options) e = false)
       (since w (register rt options w).1)) /\
  (forall w e,
     In e (since w (register rt options w).1) ->
     is_write (stateKey options) e = true ->
     (exists ok, e = Cmd (SET (stateKey options) "running" None) ok) /\
     (state_unset options (db w) \/ stale_stopping options (db w))) /\
  (forall w v ttl,
     reliable rt w ->
     set_or_absent (db w !! servicesSetKey options) ->
     set_or_absent (db w !! instancesSetKey options) ->
     0 < final_heartbeatTtl options ->
     str_or_absent (db w !! signalKey options) ->
     db w !! stateKey options = Some (EStr v ttl) ->
     v = "running" \/ v = "paused" ->
     exists w' w'' st payload,
       register rt options w = (w', Ok tt) /\
       db w' !! stateKey options = Some (EStr v ttl) /\
       Forall (fun e => is_write (stateKey options) e = false) (since w w') /\
       getState rt options w' = (w'', Ok st) /\ state_name st = v /\
       db w' !! instanceKey rt options =
         Some (EStr (JSON_stringify rt (JObj payload)) (Some (final_heartbeatTtl options))) /\
       obj_get "status" payload = Some (JStr "running")).
Proof.
  split; [|split].
  - intros w. destruct (register_frame_holds rt options w) as (_ & Hsig & Hw & _). auto.
  - intros w e Hin. destruct (register_frame_holds rt options w) as (_ & _ & _ & Hst).
    rewrite Forall_forall in Hst. apply Hst. now apply list_elem_of_In.
  - intros w v ttl Hrel T1 T2 Httl T4 Hst Hv.
    destruct (register_ok rt options w Hrel T1 T2 Httl) as (w' & E & Hle & S & D & Hev);
      [now rewrite Hst|exact T4|].
    assert (Hun : negb (truthy (read (db w !! stateKey options))) = false).
    { rewrite Hst. destruct Hv as [->| ->]; reflexivity. }
    assert (Hfi : recovery_fires options (db w) = false).
    { unfold recovery_fires. rewrite Hst. destruct Hv as [->| ->]; reflexivity. }
    rewrite Hun, Hfi in S, Hev. cbn [orb app] in S, Hev. rewrite Hst in S.
    pose proof (getState_ok rt options w' (Hrel _ Hle)) as G.
    rewrite S in G. specialize (G I).
    eexists w', _, _, _. split; [exact E|]. split; [exact S|].
    split; [|split; [exact G|split; [|split; [exact D|reflexivity]]]].
    + rewrite Hev.
      repeat first [apply Forall_nil_2 | apply Forall_cons_2]; cbn [is_write];
        first [reflexivity | apply bool_decide_eq_false_2; key_ne].
    + destruct Hv as [->| ->]; reflexivity.
Qed.

End RegistryLaws.

(** C1 on a store left stopping by a previous run. *)
Lemma register_stale_recovery_witness :
  (exists w',
     register steady orders (with_db {[ stateKey orders := EStr "stopping" None ]})
       = (w', Ok tt) /\
     db w' !! stateKey orders = Some (EStr "running" None)) /\
  (exists w',
     register steady orders
       (with_db {[ stateKey orders := EStr "stopping" None;
                   signalKey orders := EStr "stop" None ]}) = (w', Ok tt) /\
     db w' !! stateKey orders = Some (EStr "stopping" None)).
Proof.
  split.
  - destruct (register_stale_recovery steady orders
                (with_db {[ stateKey orders := EStr "stopping" None ]}) None)
      as [H _]; [intros i _; reflexivity|vm_compute; exact I|vm_compute; exact I
                |reflexivity|vm_compute; reflexivity|].
    destruct H as (w' & E & S & _); [vm_compute; reflexivity|]. exists w'. auto.
  - destruct (register_stale_recovery steady orders
                (with_db {[ stateKey orders := EStr "stopping" None;
                            signalKey orders := EStr "stop" None ]}) None)
      as (_ & _ & H); [intros i _; reflexivity|vm_compute; exact I|vm_compute; exact I
                |reflexivity|vm_compute; reflexivity|].
    destruct (H None) as (w' & E & S & _); [vm_compute; reflexivity|]. exists w'. auto.
Defined.

(** C2: a pending STOP is a stop signal for [applySignal], which lower-cases
    what it reads, but not for the recovery of [register], which compares the
    raw value with stop: the state, stopping, is overwritten with running. *)
Theorem register_recovers_despite_uppercase_stop :
  toLowerCase "STOP" = "stop" /\
  (applySignal steady orders
     (with_db {[ stateKey orders := EStr "stopping" None;
                 signalKey orders := EStr "STOP" None ]})).2 = Ok stop /\
  (register steady orders
     (with_db {[ stateKey orders := EStr "stopping" None;
                 signalKey orders := EStr "STOP" None ]})).2 = Ok tt /\
  db (register steady orders
        (with_db {[ stateKey orders := EStr "stopping" None;
                    signalKey orders := EStr "STOP" None ]})).1 !! stateKey orders
    = Some (EStr "running" None).
Proof. vm_compute. auto. Qed.

(** C9 as stated fails: a state key that is present, holding the empty
    string, is written by [register] although recovery does not fire. *)
Lemma register_writes_empty_state :
  db (with_db {[ stateKey orders := EStr "" None ]}) !! stateKey orders
    = Some (EStr "" None) /\
  recovery_fires orders (db (with_db {[ stateKey orders := EStr "" None ]})) = false /\
  In (Cmd (SET (stateKey orders) "running" None) true)
     (since (with_db {[ stateKey orders := EStr "" None ]})
        (register steady orders (with_db {[ stateKey orders := EStr "" None ]})).1) /\
  db (register steady orders (with_db {[ stateKey orders := EStr "" None ]})).1
    !! stateKey orders = Some (EStr "running" None).
Proof.
  split; [vm_compute; reflexivity|]. split; [vm_compute; reflexivity|].
  split; [|vm_compute; reflexivity].
  vm_compute. do 4 right. left. reflexivity.
Qed.

(** C9 on a paused service joined by a fresh instance. *)
Lemma register_frame_state_signal_witness :
  exists w' w'' payload,
    register steady orders (with_db {[ stateKey orders := EStr "paused" None ]})
      = (w', Ok tt) /\
    db w' !! stateKey orders = Some (EStr "paused" None) /\
    getState steady orders w' = (w'', Ok paused) /\
    db w' !! instanceKey steady orders =
      Some (EStr (Codec.stringify (JObj payload)) (Some 30)) /\
    obj_get "status" payload = Some (JStr "running").
Proof.
  destruct (register_frame_state_signal steady orders) as (_ & _ & H).
  destruct (H (with_db {[ stateKey orders := EStr "paused" None ]}) "paused" None)
    as (w' & w'' & st & payload & E & S & _ & G & N & D & P).
  - intros i _. reflexivity.
  - vm_compute. exact I.
  - vm_compute. exact I.
  - reflexivity.
  - vm_compute. exact I.
  - vm_compute. reflexivity.
  - now right.
  - exists w', w'', payload. split; [exact E|]. split; [exact S|].
    split; [|split; [exact D|exact P]].
    rewrite G. destruct st; try discriminate N. reflexivity.
Defined.

(** ** Failures of the store: who sees them *)

Section Policy.
Variable rt : runtime.
Variable options : ServiceControllerOptions.

(** [m] settles, only adds events, and rejects with the store error of any
    command that failed on its way. *)
Definition propagates {A} (m : M A) : Prop :=
  forall w,
    exists new,
      trace (m w).1 = trace w ++ new /\
      (m w).2 <> Pending /\
      forall c, In (Cmd c false) new -> (m w).2 = Throw (StoreError c).

Lemma propagates_ret {A} (a : A) : propagates (ret a).
Proof. intros w. exists []. simpl. rewrite app_nil_r. repeat split; [discriminate|tauto]. Qed.

Lemma propagates_throw {A} e : propagates (@throw A e).
Proof. intros w. exists []. simpl. rewrite app_nil_r. repeat split; [discriminate|tauto]. Qed.

Lemma propagates_now : propagates (now_iso rt).
Proof. intros w. exists []. simpl. rewrite app_nil_r. repeat split; [discriminate|tauto]. Qed.

Lemma propagates_emit e : (forall c ok, e <> Cmd c ok) -> propagates (emit e).
Proof.
  intros He w. exists [e]. simpl. repeat split; [discriminate|].
  intros c [H|[]]. now apply He in H.
Qed.

Lemma propagates_call c : propagates (redis_call rt c).
Proof.
  intros w. unfold redis_call.
  destruct (command_fails rt (issued w)).
  - exists [Cmd c false]. simpl. repeat split; [discriminate|]. intros c' [H|[]]. congruence.
  - destruct (exec c (db w)) as [[r d]|].
    + exists [Cmd c true]. simpl. repeat split; [discriminate|]. intros c' [H|[]]. discriminate.
    + exists [Cmd c false]. simpl. repeat split; [discriminate|]. intros c' [H|[]]. congruence.
Qed.

Lemma propagates_bind {A B} (m : M A) (k : A -> M B) :
  propagates m -> (forall a, propagates (k a)) -> propagates (bind m k).
Proof.
  intros Hm Hk w. destruct (Hm w) as (new1 & T1 & P1 & F1). unfold bind.
  destruct (m w) as [w1 [a|e|]]; simpl in *.
  - destruct (Hk a w1) as (new2 & T2 & P2 & F2).
    exists (new1 ++ new2). rewrite T2, T1, app_assoc. repeat split; [exact P2|].
    intros c [H|H]%in_app_or; [now apply F1 in H|now apply F2].
  - exists new1. repeat split; [exact T1|discriminate|].
    intros c H. apply F1 in H. congruence.
  - contradiction.
Qed.

Lemma propagates_when b (m : M unit) : propagates m -> propagates (when b m).
Proof. intros Hm. destruct b; [exact Hm|apply propagates_ret]. Qed.

Ltac policy :=
  repeat first
    [ apply propagates_call | apply propagates_ret | apply propagates_throw
    | apply propagates_now | apply propagates_when
    | apply propagates_emit; discriminate
    | apply propagates_bind; [|intros ?] ].

Lemma propagates_get key : propagates (redis_get rt key).
Proof. unfold redis_get. policy. Qed.
Lemma propagates_set key v : propagates (redis_set rt key v).
Proof. unfold redis_set. policy. Qed.
Lemma propagates_set_ex key v s : propagates (redis_set_ex rt key v s).
Proof. unfold redis_set_ex. policy. Qed.
Lemma propagates_sadd key m : propagates (redis_sadd rt key m).
Proof. unfold redis_sadd. policy. Qed.
Lemma propagates_srem key m : propagates (redis_srem rt key m).
Proof. unfold redis_srem. policy. Qed.
Lemma propagates_del key : propagates (redis_del rt key).
Proof. unfold redis_del. policy. Qed.

Ltac policy' :=
  repeat first
    [ apply propagates_get | apply propagates_set | apply propagates_set_ex
    | apply propagates_sadd | apply propagates_srem | apply propagates_del
    | apply propagates_ret | apply propagates_throw
    | apply propagates_now | apply propagates_when
    | apply propagates_emit; discriminate
    | apply propagates_bind; [|intros ?] ].

Lemma propagates_getState : propagates (getState rt options).
Proof. unfold getState. policy'. repeat case_bool_decide; policy'. Qed.

Lemma propagates_applySignal : propagates (applySignal rt options).
Proof.
  unfold applySignal. policy'.
  repeat match goal with |- context [if ?b then _ else _] => destruct b end;
    unfold logger_warn; policy'.
Qed.

Lemma propagates_startedAt payload : propagates (payload_startedAt payload).
Proof. destruct payload; policy'. Qed.

Lemma propagates_heartbeat so : propagates (heartbeat rt options so).
Proof.
  unfold heartbeat. policy'; [apply propagates_startedAt|].
  destruct so; [policy'|apply propagates_getState].
Qed.

Lemma propagates_register : propagates (register rt options).
Proof. unfold register, logger_warn, logger_info, process_on. policy'. Qed.

Lemma propagates_shutdown_body reason : propagates (shutdown_body rt options reason).
Proof.
  unfold shutdown_body. policy'; [apply propagates_startedAt|].
  match goal with |- context [match ?x with _ => _ end] => destruct x as [[]|] end; policy'.
Qed.


Lemma propagates_since {A} (m : M A) w c :
  propagates m -> In (Cmd c false) (since w (m w).1) -> (m w).2 = Throw (StoreError c).
Proof.
  intros Hm Hin. destruct (Hm w) as (new & T & _ & F).
  rewrite (since_app _ _ _ T) in Hin. now apply F.
Qed.

(** C8: a store failure inside [shutdown] never reaches the caller: it is
    logged as an error and [shutdown] completes normally, logging completion;
    inside [register], [heartbeat] or [applySignal] it rejects the operation
    with that store error. *)
Theorem store_failure_policy :
  (forall reason w,
     exists w',
       shutdown rt options reason w = (w', Ok tt) /\
       last (trace w') = Some (Log Info "Shutdown complete") /\
       (forall c, In (Cmd c false) (since w w') ->
                  In (Log Error "Error during shutdown") (since w w'))) /\
  (forall w c,
     In (Cmd c false) (since w (register rt options w).1) ->
     (register rt options w).2 = Throw (StoreError c)) /\
  (forall statusOverride w c,
     In (Cmd c false) (since w (heartbeat rt options statusOverride w).1) ->
     (heartbeat rt options statusOverride w).2 = Throw (StoreError c)) /\
  (forall w c,
     In (Cmd c false) (since w (applySignal rt options w).1) ->
     (applySignal rt options w).2 = Throw (StoreError c)).
Proof.
  split; [|split; [|split]].
  - intros reason w.
    destruct (propagates_shutdown_body reason w) as (new & T & P & F).
    unfold shutdown, try_catch_finally.
    destruct (shutdown_body rt options reason w) as [w1 [[]|e|]]; simpl in *.
    + eexists. split; [reflexivity|]. split; [apply last_snoc|].
      intros c Hin.
      erewrite since_app in Hin by (simpl; rewrite T, <- app_assoc; reflexivity).
      apply in_app_or in Hin as [Hin|[Hin|[]]]; [now apply F in Hin|discriminate].
    + eexists. split; [reflexivity|]. split; [apply last_snoc|].
      intros c _. erewrite since_app by (simpl; rewrite T, <- !app_assoc; reflexivity).
      apply in_or_app. right. simpl. auto.
    + contradiction.
  - intros w c. apply propagates_since, propagates_register.
  - intros so w c. apply propagates_since, propagates_heartbeat.
  - intros w c. apply propagates_since, propagates_applySignal.
Qed.

End Policy.

(** C8 on a network that loses the third command of a registration, the
    second of a heartbeat, the first of a signal poll and the second of a
    shutdown. *)
Lemma store_failure_policy_witness :
  (exists c, (register (losing 2) orders empty_world).2 = Throw (StoreError c)) /\
  (exists c, (heartbeat (losing 1) orders None empty_world).2 = Throw (StoreError c)) /\
  (exists c, (applySignal (losing 0) orders empty_world).2 = Throw (StoreError c)) /\
  (exists w',
     shutdown (losing 1) orders None empty_world = (w', Ok tt) /\
     In (Cmd (GET (instanceKey (losing 1) orders)) false) (trace w') /\
     In (Log Error "Error during shutdown") (trace w')).
Proof.
  split; [|split; [|split]].
  - eexists. apply (proj1 (proj2 (store_failure_policy (losing 2) orders))).
    vm_compute. do 2 right. left. reflexivity.
  - eexists. apply (proj1 (proj2 (proj2 (store_failure_policy (losing 1) orders))) None).
    vm_compute. right. left. reflexivity.
  - eexists. apply (proj2 (proj2 (proj2 (store_failure_policy (losing 0) orders)))).
    vm_compute. left. reflexivity.
  - destruct (proj1 (store_failure_policy (losing 1) orders) None empty_world)
      as (w' & E & _ & Herr).
    exists w'. split; [exact E|].
    assert (Hw : w' = (shutdown (losing 1) orders None empty_world).1) by now rewrite E.
    split.
    + rewrite Hw. vm_compute. right. left. reflexivity.
    + assert (Hs : since empty_world w' = trace w') by (unfold since; apply drop_0).
      rewrite <- Hs. apply (Herr (GET (instanceKey (losing 1) orders))).
      rewrite Hs, Hw. vm_compute. right. left. reflexivity.
Defined.

(** ** Descriptors: heartbeat and shutdown *)

Lemma obj_get_set_eq k v o : obj_get k (obj_set k v o) = Some v.
Proof.
  induction o as [|[k' v'] o IH]; simpl.
  - now rewrite String.eqb_refl.
  - destruct (String.eqb_spec k k') as [->|Hne]; simpl.
    + now rewrite String.eqb_refl.
    + apply String.eqb_neq in Hne. now rewrite Hne.
Qed.

Lemma obj_get_set_ne k k' v o : k <> k' -> obj_get k (obj_set k' v o) = obj_get k o.
Proof.
  intros Hne. induction o as [|[k'' v''] o IH]; simpl.
  - apply String.eqb_neq in Hne. now rewrite Hne.
  - destruct (String.eqb_spec k' k'') as [->|Hne']; simpl.
    + apply String.eqb_neq in Hne. now rewrite Hne.
    + now rewrite IH.
Qed.

(** A property of an object literal [{ ...base, props }] is the last one of
    that name among [props], or else that of [base]. *)
Ltac literal :=
  cbn [assign fold_left app identity_props fst snd];
  repeat first
    [ rewrite obj_get_set_eq
    | rewrite obj_get_set_ne by discriminate ].

Lemma since_ticked w W : since w (ticked W) = since w W.
Proof. reflexivity. Qed.

Lemma bind_ret_r {A} (m : M A) w : bind m ret w = m w.
Proof. unfold bind, ret. destruct (m w) as [w1 [a|e|]]; reflexivity. Qed.

Section Descriptors.
Variable rt : runtime.
Variable options : ServiceControllerOptions.

(** The descriptor a heartbeat writes over [payload] at clock reading [now]. *)
Definition heartbeat_body (payload : json) (started : option json) (now : string)
    (status : ServiceState) : obj :=
  assign (spread payload)
    (identity_props rt options ++
     [ ("startedAt", nullish_or started (JStr now));
       ("lastSeen", JStr now);
       ("status", JStr (state_name status));
       ("tags", tags_value options);
       ("meta", meta_value options) ]).

(** [payload.startedAt] when it does not throw. *)
Definition started_of (payload : json) : option json :=
  match payload with
  | JObj o => obj_get "startedAt" o
  | _ => None
  end.

Lemma payload_startedAt_ok payload w :
  payload <> JNull -> payload_startedAt payload w = (w, Ok (started_of payload)).
Proof. intros H. destruct payload; try reflexivity. congruence. Qed.

Lemma heartbeat_ok statusOverride w :
  reliable rt w ->
  str_or_absent (db w !! instanceKey rt options) ->
  str_or_absent (db w !! stateKey options) ->
  0 < final_heartbeatTtl options ->
  parse_payload rt (read (db w !! instanceKey rt options)) <> JNull ->
  let payload := parse_payload rt (read (db w !! instanceKey rt options)) in
  let status := default (state_read (db w !! stateKey options)) statusOverride in
  let body := heartbeat_body payload (started_of payload) (wall_clock rt (ticks w)) status in
  exists w',
    heartbeat rt options statusOverride w = (w', Ok tt) /\
    db w' = <[instanceKey rt options :=
                EStr (JSON_stringify rt (JObj body)) (Some (final_heartbeatTtl options))]> (db w).
Proof.
  intros Hrel T1 T2 Httl Hp payload status body. unfold heartbeat.
  rewrite bind_now.
  send Hrel redis_get_ok; [|exact T1].
  autorewrite with world. fold payload.
  rewrite (bind_ok _ _ _ _ _ (payload_startedAt_ok payload _ Hp)).
  destruct statusOverride as [s|].
  - rewrite bind_ret, redis_set_ex_ok; [|rel Hrel|exact Httl].
    eexists. split; reflexivity.
  - send Hrel getState_ok; [|exact T2].
    rewrite redis_set_ex_ok; [|rel Hrel|exact Httl].
    eexists. split; reflexivity.
Qed.

(** The descriptor [shutdown] writes over [payload]. *)
Definition shutdown_descriptor (payload : json) (startedAt : json) (lastSeen : string)
    (reason : option string) : obj :=
  assign (spread payload)
    (identity_props rt options ++
     [ ("startedAt", startedAt);
       ("lastSeen", JStr lastSeen);
       ("status", JStr "stopping");
       ("tags", tags_value options);
       ("meta", meta_value options);
       ("stopReason", JStr (default "manual" reason)) ]).

Lemma shutdown_body_ok reason w :
  reliable rt w ->
  str_or_absent (db w !! instanceKey rt options) ->
  set_or_absent (db w !! instancesSetKey options) ->
  parse_payload rt (read (db w !! instanceKey rt options)) <> JNull ->
  exists w' startedAt lastSeen,
    shutdown_body rt options reason w = (w', Ok tt) /\
    db w' =
      srem_db (instancesSetKey options) (instanceId rt)
        (<[instanceKey rt options :=
             EStr (JSON_stringify rt
                     (JObj (shutdown_descriptor
                              (parse_payload rt (read (db w !! instanceKey rt options)))
                              startedAt lastSeen reason)))
                  (Some 10)]>
           (<[stateKey options := EStr "stopping" None]> (db w))) /\
    forall e, In e (since w w') -> exists c, e = Cmd c true.
Proof.
  intros Hrel T1 T2 Hp. unfold shutdown_body.
  send Hrel redis_set_ok.
  send Hrel redis_get_ok; [|autorewrite with world; look; exact T1].
  autorewrite with world. look.
  set (payload := parse_payload rt _) in *.
  rewrite (bind_ok _ _ _ _ _ (payload_startedAt_ok payload _ Hp)).
  assert (Hrun : forall (startedAt : json) (W : world),
            db W = <[stateKey options := EStr "stopping" None]> (db w) ->
            (issued w <= issued W)%nat ->
            (forall e, In e (since w W) -> exists c, e = Cmd c true) ->
            trace W = trace w ++ since w W ->
            exists w' lastSeen,
              (let! lastSeen := now_iso rt in
               redis_set_ex rt (instanceKey rt options)
                 (JSON_stringify rt
                    (JObj (shutdown_descriptor payload startedAt lastSeen reason))) 10;;
               redis_srem rt (instancesSetKey options) (instanceId rt)) W = (w', Ok tt) /\
              db w' =
                srem_db (instancesSetKey options) (instanceId rt)
                  (<[instanceKey rt options :=
                       EStr (JSON_stringify rt
                               (JObj (shutdown_descriptor payload startedAt lastSeen reason)))
                            (Some 10)]>
                     (<[stateKey options := EStr "stopping" None]> (db w))) /\
              forall e, In e (since w w') -> exists c, e = Cmd c true).
  { intros startedAt W HW Hle Hev HT. rewrite bind_now.
    send Hrel redis_set_ex_ok; [|lia].
    rewrite redis_srem_ok; [|rel Hrel|autorewrite with world; rewrite HW; look; exact T2].
    eexists _, _. split; [reflexivity|]. autorewrite with world. rewrite HW.
    split; [reflexivity|].
    intros e. erewrite since_app by (autorewrite with world; rewrite HT, <- !app_assoc; reflexivity).
    intros [Hin|Hin]%in_app_or; [now apply Hev|].
    destruct Hin as [<-|[<-|[]]]; eauto. }
  assert (HT0 : trace (sent (GET (instanceKey rt options)) true
                  (<[stateKey options := EStr "stopping" None]> (db w))
                  (sent (SET (stateKey options) "stopping" None) true
                     (<[stateKey options := EStr "stopping" None]> (db w)) w))
                = trace w ++ [Cmd (SET (stateKey options) "stopping" None) true;
                              Cmd (GET (instanceKey rt options)) true]).
  { autorewrite with world. now rewrite <- app_assoc. }
  destruct (started_of payload) as [[]|]; cbv beta iota;
    first [rewrite bind_ret | rewrite bind_assoc, bind_now, bind_ret];
    (edestruct Hrun as (w' & lastSeen & E & D & Hev);
     [| | | |eexists w', _, lastSeen; split; [exact E|split; [exact D|exact Hev]]];
     [ reflexivity
     | autorewrite with world; lia
     | rewrite ?since_ticked, (since_app _ _ _ HT0); intros e [<-|[<-|[]]]; eauto
     | autorewrite with world; rewrite ?since_ticked, (since_app _ _ _ HT0); exact HT0 ]).
Qed.


(** C7: for an instance whose descriptor is stored (with the heartbeat TTL or
    any other), [shutdown] with reason manual, or with no reason, stores the
    descriptor again with TTL 10, status stopping and stopReason manual, sets
    the service-wide state to stopping and removes the instance id from the
    instances set. *)
Theorem shutdown_rewrites_descriptor reason w raw ttl :
  reliable rt w ->
  db w !! instanceKey rt options = Some (EStr raw ttl) ->
  set_or_absent (db w !! instancesSetKey options) ->
  parse_payload rt (Some raw) <> JNull ->
  reason = Some "manual" \/ reason = None ->
  exists w' body,
    shutdown rt options reason w = (w', Ok tt) /\
    db w' !! instanceKey rt options =
      Some (EStr (JSON_stringify rt (JObj body)) (Some 10)) /\
    obj_get "status" body = Some (JStr "stopping") /\
    obj_get "stopReason" body = Some (JStr "manual") /\
    db w' !! stateKey options = Some (EStr "stopping" None) /\
    (instanceId rt ∉ members_of (db w' !! instancesSetKey options)) /\
    ~ In (Log Error "Error during shutdown") (since w w').
Proof.
  intros Hrel Hraw T2 Hp Hreason.
  destruct (shutdown_body_ok reason w Hrel) as (w1 & startedAt & lastSeen & E & D & Hev);
    [now rewrite Hraw|exact T2|now rewrite Hraw|].
  destruct (propagates_shutdown_body rt options reason w) as (new & T & _).
  rewrite E in T. cbn [fst] in T.
  eexists (logged (Log Info "Shutdown complete") w1), _.
  split; [unfold shutdown, try_catch_finally; now rewrite E|].
  autorewrite with world. rewrite D.
  split; [rewrite srem_db_other, lookup_insert_eq by key_ne; reflexivity|].
  unfold shutdown_descriptor.
  split; [literal; reflexivity|].
  split; [literal; destruct Hreason as [->| ->]; reflexivity|].
  split; [look; now rewrite lookup_insert_eq|].
  split; [apply srem_db_not_member|].
  erewrite since_app by (autorewrite with world; rewrite T, <- app_assoc; reflexivity).
  rewrite (since_app _ _ _ T) in Hev.
  intros [Hin|[Hin|[]]]%in_app_or; [|discriminate].
  apply Hev in Hin as [c Hc]. discriminate.
Qed.

End Descriptors.

Section HeartbeatWrites.
Variable rt : runtime.
Variable options : ServiceControllerOptions.

(** Every [SET] among [events] stores, under the instance key and with the
    heartbeat TTL, a descriptor carrying the configured tags and meta. *)
Definition writes_configured (events : list event) : Prop :=
  Forall (fun e =>
            forall k v ex ok, e = Cmd (SET k v ex) ok ->
              k = instanceKey rt options /\
              ex = Some (final_heartbeatTtl options) /\
              exists body,
                v = JSON_stringify rt (JObj body) /\
                obj_get "tags" body = Some (tags_value options) /\
                obj_get "meta" body = Some (meta_value options))
         events.

Definition heartbeat_frame (w : world) (res : world * outcome unit) : Prop :=
  writes_configured (since w res.1).

Ltac hb_leaf w :=
  solve
  [ unfold heartbeat_frame, writes_configured, ret; cbn [fst snd]; events w;
    repeat first [apply Forall_nil_2 | apply Forall_cons_2];
    intros k v ex ok Heq; first
      [ discriminate Heq
      | injection Heq as <- <- <- _;
        split; [reflexivity|]; split; [reflexivity|];
        eexists; split; [reflexivity|]; split; literal; reflexivity ] ].

Lemma heartbeat_frame_holds statusOverride w :
  heartbeat_frame w (heartbeat rt options statusOverride w).
Proof.
  unfold heartbeat. rewrite bind_now.
  apply rule_get; [hb_leaf w|intros T1; cbv beta].
  set (payload := parse_payload rt _).
  destruct payload eqn:Ep; cbn [payload_startedAt];
    try (unfold throw, bind; hb_leaf w); rewrite bind_ret.
  all: destruct statusOverride as [st|];
    [ rewrite bind_ret, <- bind_ret_r; apply rule_set_ex; [hb_leaf w|intros _; hb_leaf w]
    | unfold getState; rewrite bind_assoc; apply rule_get; [hb_leaf w|intros T2; cbv beta];
      repeat case_bool_decide; rewrite bind_ret, <- bind_ret_r;
      (apply rule_set_ex; [hb_leaf w|intros _; hb_leaf w]) ].
Qed.

(** C10: every descriptor a heartbeat sends to the store carries the tags and
    meta of the controller's options; when no command is lost the heartbeat
    stores such a descriptor, with the empty list and the empty mapping for
    options that are not configured, whatever the stored descriptor holds in
    those fields, and keeps a stored startedAt that is present (not null). *)
Theorem heartbeat_resets_tags_meta :
  (forall statusOverride w,
     writes_configured (since w (heartbeat rt options statusOverride w).1)) /\
  (forall statusOverride w,
     reliable rt w ->
     str_or_absent (db w !! instanceKey rt options) ->
     str_or_absent (db w !! stateKey options) ->
     0 < final_heartbeatTtl options ->
     parse_payload rt (read (db w !! instanceKey rt options)) <> JNull ->
     exists w' body,
       heartbeat rt options statusOverride w = (w', Ok tt) /\
       db w' !! instanceKey rt options =
         Some (EStr (JSON_stringify rt (JObj body)) (Some (final_heartbeatTtl options))) /\
       obj_get "tags" body = Some (JArr (JStr <$> default [] (tags options))) /\
       obj_get "meta" body = Some (JObj (default [] (meta options))) /\
       (tags options = None -> obj_get "tags" body = Some (JArr [])) /\
       (meta options = None -> obj_get "meta" body = Some (JObj [])) /\
       (forall stored v,
          parse_payload rt (read (db w !! instanceKey rt options)) = JObj stored ->
          obj_get "startedAt" stored = Some v -> v <> JNull ->
          obj_get "startedAt" body = Some v)).
Proof.
  split; [exact heartbeat_frame_holds|].
  intros statusOverride w Hrel T1 T2 Httl Hp.
  destruct (heartbeat_ok rt options statusOverride w Hrel T1 T2 Httl Hp) as (w' & E & D).
  eexists w', _. split; [exact E|]. split; [rewrite D; apply lookup_insert_eq|].
  unfold heartbeat_body.
  split; [literal; reflexivity|]. split; [literal; reflexivity|].
  split; [intros Ht; literal; unfold tags_value; now rewrite Ht|].
  split; [intros Hm; literal; unfold meta_value; now rewrite Hm|].
  intros stored v Hs Hv Hn. literal. rewrite Hs. cbn [started_of]. rewrite Hv.
  destruct v; try reflexivity. congruence.
Qed.

End HeartbeatWrites.

(** C10 on a descriptor whose tags and meta an outsider has changed. *)
Lemma heartbeat_resets_tags_meta_witness :
  exists w' body,
    heartbeat steady orders None
      (with_db {[ instanceKey steady orders :=
                    EStr (Codec.stringify
                            (JObj [ ("startedAt", JStr "2023-12-31T23:59:59.000Z");
                                    ("tags", JArr [JStr "intruder"]);
                                    ("meta", JObj [("owner", JStr "nobody")]);
                                    ("note", JStr "kept") ]))
                         (Some 30) ]}) = (w', Ok tt) /\
    db w' !! instanceKey steady orders = Some (EStr (Codec.stringify (JObj body)) (Some 30)) /\
    obj_get "tags" body = Some (JArr [JStr "eu"; JStr "blue"]) /\
    obj_get "meta" body = Some (JObj [("version", JStr "1.4.2")]) /\
    obj_get "startedAt" body = Some (JStr "2023-12-31T23:59:59.000Z").
Proof.
  destruct (proj2 (heartbeat_resets_tags_meta steady orders) None
      (with_db {[ instanceKey steady orders :=
                    EStr (Codec.stringify
                            (JObj [ ("startedAt", JStr "2023-12-31T23:59:59.000Z");
                                    ("tags", JArr [JStr "intruder"]);
                                    ("meta", JObj [("owner", JStr "nobody")]);
                                    ("note", JStr "kept") ]))
                         (Some 30) ]}))
    as (w' & body & E & D & Ht & Hm & _ & _ & Hs).
  - intros i _. reflexivity.
  - vm_compute. exact I.
  - vm_compute. exact I.
  - reflexivity.
  - vm_compute. discriminate.
  - exists w', body. split; [exact E|]. split; [exact D|]. split; [exact Ht|].
    split; [exact Hm|]. eapply Hs; [vm_compute; reflexivity|reflexivity|discriminate].
Defined.

(** C7 on the instance a registration has just stored with TTL 30. *)
Lemma shutdown_rewrites_descriptor_witness :
  (exists raw,
     db (register steady orders empty_world).1 !! instanceKey steady orders
       = Some (EStr raw (Some 30))) /\
  (instanceId steady ∈
    members_of (db (register steady orders empty_world).1 !! instancesSetKey orders)) /\
  exists w' body,
    shutdown steady orders (Some "manual") (register steady orders empty_world).1
      = (w', Ok tt) /\
    db w' !! instanceKey steady orders = Some (EStr (Codec.stringify (JObj body)) (Some 10)) /\
    obj_get "status" body = Some (JStr "stopping") /\
    obj_get "stopReason" body = Some (JStr "manual") /\
    db w' !! stateKey orders = Some (EStr "stopping" None) /\
    (instanceId steady ∉ members_of (db w' !! instancesSetKey orders)).
Proof.
  split; [eexists; vm_compute; reflexivity|].
  split; [vm_compute; reflexivity|].
  edestruct (shutdown_rewrites_descriptor steady orders (Some "manual")
               (register steady orders empty_world).1)
    as (w' & body & E & D & S & R & St & Hm & _).
  - intros i _. reflexivity.
  - vm_compute. reflexivity.
  - vm_compute. exact I.
  - vm_compute. discriminate.
  - now left.
  - exists w', body. auto 10.
Defined.

(** * Further properties of the controller *)

(** ** What an operation keeps true of the keyspace *)

Section Keeps.
Variable rt : runtime.
Variable I : gmap string entry -> Prop.

(** [m] keeps [I]: if the keyspace satisfies [I] before, it does after,
    however [m] ends. *)
Definition keeps {A} (m : M A) : Prop :=
  forall w, I (db w) -> I (db (m w).1).

Lemma keeps_ret {A} (a : A) : keeps (ret a).
Proof. intros w H. exact H. Qed.

Lemma keeps_throw {A} e : keeps (@throw A e).
Proof. intros w H. exact H. Qed.

Lemma keeps_now : keeps (now_iso rt).
Proof. intros w H. exact H. Qed.

Lemma keeps_emit e : keeps (emit e).
Proof. intros w H. exact H. Qed.

Lemma keeps_bind {A B} (m : M A) (k : A -> M B) :
  keeps m -> (forall a, keeps (k a)) -> keeps (bind m k).
Proof.
  intros Hm Hk w H. specialize (Hm w H). unfold bind.
  destruct (m w) as [w1 [a|e|]]; simpl in *; [now apply Hk|exact Hm|exact Hm].
Qed.

Lemma keeps_when b (m : M unit) : keeps m -> keeps (when b m).
Proof. intros Hm. destruct b; [exact Hm|apply keeps_ret]. Qed.

Lemma keeps_call c :
  (forall d r d', I d -> exec c d = Some (r, d') -> I d') -> keeps (redis_call rt c).
Proof.
  intros Hc w H. unfold redis_call.
  destruct (command_fails rt (issued w)); [exact H|].
  destruct (exec c (db w)) as [[r d']|] eqn:E; [exact (Hc _ _ _ H E)|exact H].
Qed.

Lemma keeps_try (body : M unit) (handler : error -> M unit) (fin : M unit) :
  keeps body -> (forall e, keeps (handler e)) -> keeps fin ->
  keeps (try_catch_finally body handler fin).
Proof.
  intros Hb Hh Hf w H. specialize (Hb w H). unfold try_catch_finally.
  destruct (body w) as [w1 [[]|e|]]; simpl in *; [now apply Hf| |exact Hb].
  specialize (Hh e w1 Hb). destruct (handler e w1) as [w2 [[]|e'|]]; simpl in *;
    [now apply Hf| |exact Hh].
  specialize (Hf w2 Hh). destruct (fin w2) as [w3 [[]|e''|]]; exact Hf.
Qed.

End Keeps.

(** A command leaves every key but its own as it was. *)
Lemma exec_other c d r d' k :
  exec c d = Some (r, d') -> k <> key_of c -> d' !! k = d !! k.
Proof.
  intros E Hk. destruct c as [key|key v [t|]|key m|key m|key]; simpl in *.
  - destruct (d !! key) as [[]|]; simplify_eq; reflexivity.
  - destruct (0 <? t); simplify_eq. now rewrite lookup_insert_ne.
  - simplify_eq. now rewrite lookup_insert_ne.
  - destruct (d !! key) as [[]|]; simplify_eq; now rewrite lookup_insert_ne.
  - destruct (d !! key) as [[|s]|]; simplify_eq; try reflexivity.
    destruct (decide (s ∖ {[m]} = ∅)); [now rewrite lookup_delete_ne|now rewrite lookup_insert_ne].
  - simplify_eq. now rewrite lookup_delete_ne.
Qed.

(** A read changes nothing. *)
Lemma exec_get key d r d' : exec (GET key) d = Some (r, d') -> d' = d.
Proof. simpl. destruct (d !! key) as [[]|]; intros; simplify_eq; reflexivity. Qed.

(** ** What an operation keeps true of one key *)

(** The entry under key [k] satisfies [P]. *)
Definition at_key (k : string) (P : option entry -> Prop) (d : gmap string entry) : Prop :=
  P (d !! k).

Section AtKey.
Variable rt : runtime.
Variable k : string.
Variable P : option entry -> Prop.

Lemma at_call_other c : k <> key_of c -> keeps (at_key k P) (redis_call rt c).
Proof.
  intros Hk. apply keeps_call. unfold at_key. intros d r d' H E.
  now rewrite (exec_other _ _ _ _ _ E Hk).
Qed.

Lemma at_get key : keeps (at_key k P) (redis_get rt key).
Proof.
  unfold redis_get. apply keeps_bind; [|intros; apply keeps_ret].
  apply keeps_call. intros d r d' H E. now rewrite (exec_get _ _ _ _ E).
Qed.

Lemma at_set key v : k <> key -> keeps (at_key k P) (redis_set rt key v).
Proof.
  intros Hk. unfold redis_set. apply keeps_bind; [|intros; apply keeps_ret].
  now apply at_call_other.
Qed.

Lemma at_set_same v : P (Some (EStr v None)) -> keeps (at_key k P) (redis_set rt k v).
Proof.
  intros HP. unfold redis_set. apply keeps_bind; [|intros; apply keeps_ret].
  apply keeps_call. unfold at_key. intros d r d' _ E. simpl in E. simplify_eq.
  now rewrite lookup_insert_eq.
Qed.

Lemma at_set_ex key v s : k <> key -> keeps (at_key k P) (redis_set_ex rt key v s).
Proof.
  intros Hk. unfold redis_set_ex. apply keeps_bind; [|intros; apply keeps_ret].
  now apply at_call_other.
Qed.

Lemma at_set_ex_same v s :
  (0 < s -> P (Some (EStr v (Some s)))) -> keeps (at_key k P) (redis_set_ex rt k v s).
Proof.
  intros HP. unfold redis_set_ex. apply keeps_bind; [|intros; apply keeps_ret].
  apply keeps_call. unfold at_key. intros d r d' _ E. simpl in E.
  destruct (Z.ltb_spec 0 s); simplify_eq. rewrite lookup_insert_eq. now apply HP.
Qed.

Lemma at_del key : k <> key -> keeps (at_key k P) (redis_del rt key).
Proof.
  intros Hk. unfold redis_del. apply keeps_bind; [|intros; apply keeps_ret].
  now apply at_call_other.
Qed.

Lemma at_sadd key m : k <> key -> keeps (at_key k P) (redis_sadd rt key m).
Proof.
  intros Hk. unfold redis_sadd. apply keeps_bind; [|intros; apply keeps_ret].
  now apply at_call_other.
Qed.

Lemma at_srem key m : k <> key -> keeps (at_key k P) (redis_srem rt key m).
Proof.
  intros Hk. unfold redis_srem. apply keeps_bind; [|intros; apply keeps_ret].
  now apply at_call_other.
Qed.

End AtKey.

(** One step of an operation, with [side] for what a write must establish. *)
Ltac keeps_with side :=
  repeat first
    [ apply at_get
    | apply at_set_same; side
    | apply at_set_ex_same; side
    | apply at_set; side
    | apply at_set_ex; side
    | apply at_del; side
    | apply at_sadd; side
    | apply at_srem; side
    | apply keeps_ret | apply keeps_throw | apply keeps_now | apply keeps_emit
    | apply keeps_when
    | apply keeps_bind; [|intros ?] ].

(** The operations, one script each, for any key and any [side]. *)
Ltac keeps_getState side :=
  unfold getState; keeps_with side; repeat case_bool_decide; keeps_with side.
Ltac keeps_applySignal side :=
  unfold applySignal; keeps_with side;
  repeat match goal with |- context [if ?b then _ else _] => destruct b end;
  keeps_with side.
Ltac keeps_startedAt side :=
  match goal with |- keeps _ (payload_startedAt ?p) => destruct p end; keeps_with side.
Ltac keeps_heartbeat side :=
  unfold heartbeat; keeps_with side;
  lazymatch goal with
  | |- keeps _ (payload_startedAt _) => keeps_startedAt side
  | |- keeps _ (match ?so with Some _ => _ | None => _ end) =>
      destruct so; [keeps_with side|keeps_getState side]
  end.
Ltac keeps_register side := unfold register; keeps_with side.
Ltac keeps_shutdown side :=
  unfold shutdown; apply keeps_try; [|intros; apply keeps_emit|apply keeps_emit];
  unfold shutdown_body; keeps_with side; [keeps_startedAt side|];
  match goal with |- context [match ?x with _ => _ end] => destruct x as [[]|] end;
  keeps_with side.
Ltac keeps_pause_loop side fuel :=
  induction fuel; [intros ? ?; assumption|];
  cbn [pause_loop]; apply keeps_bind; [keeps_heartbeat side|intros _];
  apply keeps_bind; [keeps_applySignal side|intros ?];
  apply keeps_bind; [keeps_getState side|intros ?];
  destruct (_ || _); [apply keeps_ret|];
  match goal with |- context [is_state ?s running] => destruct (is_state s running) end;
  [apply keeps_emit|];
  apply keeps_bind; [apply keeps_emit|intros _; assumption].
Ltac keeps_waitIfPaused side fuel :=
  unfold waitIfPaused;
  apply keeps_bind; [keeps_applySignal side|intros _];
  apply keeps_bind; [keeps_getState side|intros ?];
  destruct (negb _); [apply keeps_ret|];
  apply keeps_bind; [apply keeps_emit|intros _; keeps_pause_loop side fuel].
Ltac keeps_shouldStop side :=
  unfold shouldStop, shouldStop_among;
  apply keeps_bind; [keeps_applySignal side|intros ?];
  apply keeps_bind; [exact (keeps_ret _ tt)|intros _];
  apply keeps_bind; [keeps_getState side|intros ?; apply keeps_ret].

(** ** The keys an operation may change *)

Section Footprints.
Variable rt : runtime.
Variable options : ServiceControllerOptions.

(** X1: each operation changes only its own keys, whatever happens to its
    commands: [applySignal] and [shouldStop] the state and signal keys,
    [heartbeat] the instance key, [waitIfPaused] those three, [shutdown] the
    state key, the instance key and the instances set, [register] the two
    sets, the instance key and the state key. Every other key of the store
    holds afterwards what it held before. *)
Theorem operation_footprints (k : string) :
  (forall w, k <> stateKey options -> k <> signalKey options ->
     db (applySignal rt options w).1 !! k = db w !! k /\
     db (shouldStop rt options w).1 !! k = db w !! k) /\
  (forall statusOverride w, k <> instanceKey rt options ->
     db (heartbeat rt options statusOverride w).1 !! k = db w !! k) /\
  (forall fuel w,
     k <> stateKey options -> k <> signalKey options -> k <> instanceKey rt options ->
     db (waitIfPaused rt options fuel w).1 !! k = db w !! k) /\
  (forall reason w,
     k <> stateKey options -> k <> instanceKey rt options -> k <> instancesSetKey options ->
     db (shutdown rt options reason w).1 !! k = db w !! k) /\
  (forall w,
     k <> servicesSetKey options -> k <> instancesSetKey options ->
     k <> instanceKey rt options -> k <> stateKey options ->
     db (register rt options w).1 !! k = db w !! k).
Proof.
  split; [|split; [|split; [|split]]].
  - intros w0 H1 H2. split.
    + assert (Hk : keeps (at_key k (eq (db w0 !! k))) (applySignal rt options))
        by keeps_applySignal assumption.
      symmetry. now apply (Hk w0).
    + assert (Hk : keeps (at_key k (eq (db w0 !! k))) (shouldStop rt options))
        by keeps_shouldStop assumption.
      symmetry. now apply (Hk w0).
  - intros so w0 H1.
    assert (Hk : keeps (at_key k (eq (db w0 !! k))) (heartbeat rt options so))
      by keeps_heartbeat assumption.
    symmetry. now apply (Hk w0).
  - intros fuel w0 H1 H2 H3.
    assert (Hk : keeps (at_key k (eq (db w0 !! k))) (waitIfPaused rt options fuel))
      by keeps_waitIfPaused assumption fuel.
    symmetry. now apply (Hk w0).
  - intros reason w0 H1 H2 H3.
    assert (Hk : keeps (at_key k (eq (db w0 !! k))) (shutdown rt options reason))
      by keeps_shutdown assumption.
    symmetry. now apply (Hk w0).
  - intros w0 H1 H2 H3 H4.
    assert (Hk : keeps (at_key k (eq (db w0 !! k))) (register rt options))
      by keeps_register assumption.
    symmetry. now apply (Hk w0).
Qed.

End Footprints.

(** ** Invariants of the state key and of the descriptor *)

(** The state key is absent or holds the name of a state. *)
Definition state_valid (e : option entry) : Prop :=
  e = None \/ exists st ttl, e = Some (EStr (state_name st) ttl).

(** The entry, if a string, expires: it carries a positive TTL. *)
Definition expiring (e : option entry) : Prop :=
  match e with
  | Some (EStr _ ttl) => exists t, ttl = Some t /\ 0 < t
  | _ => True
  end.

Ltac state_side :=
  first
    [ key_ne
    | right; exists running, None; reflexivity
    | right; exists paused, None; reflexivity
    | right; exists stopping, None; reflexivity ].

Ltac expiring_side :=
  first [ key_ne | intros ?; eexists; split; [reflexivity|assumption] ].

Section Invariants.
Variable rt : runtime.
Variable options : ServiceControllerOptions.

(** X2: the controller never stores anything but the name of a state under
    the state key: if the key is absent or holds running, paused or stopping,
    it still does after any operation, however that operation ends. *)
Theorem state_key_stays_valid w :
  state_valid (db w !! stateKey options) ->
  state_valid (db (register rt options w).1 !! stateKey options) /\
  (forall statusOverride,
     state_valid (db (heartbeat rt options statusOverride w).1 !! stateKey options)) /\
  state_valid (db (applySignal rt options w).1 !! stateKey options) /\
  state_valid (db (shouldStop rt options w).1 !! stateKey options) /\
  (forall fuel, state_valid (db (waitIfPaused rt options fuel w).1 !! stateKey options)) /\
  (forall reason, state_valid (db (shutdown rt options reason w).1 !! stateKey options)).
Proof.
  intros H.
  split; [|split; [|split; [|split; [|split]]]].
  - assert (Hk : keeps (at_key (stateKey options) state_valid) (register rt options))
      by keeps_register state_side.
    now apply (Hk w).
  - intros so.
    assert (Hk : keeps (at_key (stateKey options) state_valid) (heartbeat rt options so))
      by keeps_heartbeat state_side.
    now apply (Hk w).
  - assert (Hk : keeps (at_key (stateKey options) state_valid) (applySignal rt options))
      by keeps_applySignal state_side.
    now apply (Hk w).
  - assert (Hk : keeps (at_key (stateKey options) state_valid) (shouldStop rt options))
      by keeps_shouldStop state_side.
    now apply (Hk w).
  - intros fuel.
    assert (Hk : keeps (at_key (stateKey options) state_valid) (waitIfPaused rt options fuel))
      by keeps_waitIfPaused state_side fuel.
    now apply (Hk w).
  - intros reason.
    assert (Hk : keeps (at_key (stateKey options) state_valid) (shutdown rt options reason))
      by keeps_shutdown state_side.
    now apply (Hk w).
Qed.

(** X3: the controller never stores a descriptor that does not expire: if the
    instance key is absent or carries a positive TTL, it still does after any
    operation, however that operation ends. *)
Theorem descriptor_always_expires w :
  expiring (db w !! instanceKey rt options) ->
  expiring (db (register rt options w).1 !! instanceKey rt options) /\
  (forall statusOverride,
     expiring (db (heartbeat rt options statusOverride w).1 !! instanceKey rt options)) /\
  expiring (db (applySignal rt options w).1 !! instanceKey rt options) /\
  expiring (db (shouldStop rt options w).1 !! instanceKey rt options) /\
  (forall fuel, expiring (db (waitIfPaused rt options fuel w).1 !! instanceKey rt options)) /\
  (forall reason, expiring (db (shutdown rt options reason w).1 !! instanceKey rt options)).
Proof.
  intros H.
  split; [|split; [|split; [|split; [|split]]]].
  - assert (Hk : keeps (at_key (instanceKey rt options) expiring) (register rt options))
      by keeps_register expiring_side.
    now apply (Hk w).
  - intros so.
    assert (Hk : keeps (at_key (instanceKey rt options) expiring) (heartbeat rt options so))
      by keeps_heartbeat expiring_side.
    now apply (Hk w).
  - assert (Hk : keeps (at_key (instanceKey rt options) expiring) (applySignal rt options))
      by keeps_applySignal expiring_side.
    now apply (Hk w).
  - assert (Hk : keeps (at_key (instanceKey rt options) expiring) (shouldStop rt options))
      by keeps_shouldStop expiring_side.
    now apply (Hk w).
  - intros fuel.
    assert (Hk : keeps (at_key (instanceKey rt options) expiring)
                   (waitIfPaused rt options fuel))
      by keeps_waitIfPaused expiring_side fuel.
    now apply (Hk w).
  - intros reason.
    assert (Hk : keeps (at_key (instanceKey rt options) expiring)
                   (shutdown rt options reason))
      by keeps_shutdown expiring_side.
    now apply (Hk w).
Qed.

End Invariants.

(** ** Registration: what a successful run leaves *)

Lemma ticks_sent c ok d w : ticks (sent c ok d w) = ticks w.
Proof. reflexivity. Qed.
Lemma ticks_logged e w : ticks (logged e w) = ticks w.
Proof. reflexivity. Qed.
Lemma ticks_ticked w : ticks (ticked w) = S (ticks w).
Proof. reflexivity. Qed.
#[global] Hint Rewrite ticks_sent ticks_logged ticks_ticked : world.

Section RegistrationEffects.
Variable rt : runtime.
Variable options : ServiceControllerOptions.

(** The keyspace a registration leaves when no command is lost. *)
Definition registered_db (now : string) (d : gmap string entry) : gmap string entry :=
  let blob := JSON_stringify rt (JObj (initial_descriptor rt options now)) in
  let d3 :=
    <[instanceKey rt options := EStr blob (Some (final_heartbeatTtl options))]>
      (sadd_db (instancesSetKey options) (instanceId rt)
         (sadd_db (servicesSetKey options) (serviceName options) d)) in
  let d4 :=
    if truthy (read (d !! stateKey options)) then d3
    else <[stateKey options := EStr "running" None]> d3 in
  if recovery_fires options d then <[stateKey options := EStr "running" None]> d4 else d4.

Lemma register_db w :
  reliable rt w ->
  set_or_absent (db w !! servicesSetKey options) ->
  set_or_absent (db w !! instancesSetKey options) ->
  0 < final_heartbeatTtl options ->
  str_or_absent (db w !! stateKey options) ->
  str_or_absent (db w !! signalKey options) ->
  exists w',
    register rt options w = (w', Ok tt) /\
    (issued w <= issued w')%nat /\
    ticks w' = S (ticks w) /\
    db w' = registered_db (wall_clock rt (ticks w)) (db w).
Proof.
  intros Hrel T1 T2 Httl T3 T4. unfold register, registered_db, recovery_fires.
  rewrite bind_now. fold (initial_descriptor rt options (wall_clock rt (ticks w))).
  set (blob := JSON_stringify rt _).
  send Hrel redis_sadd_ok; [|exact T1].
  send Hrel redis_sadd_ok; [|autorewrite with world; look; exact T2].
  send Hrel redis_set_ex_ok; [|exact Httl].
  send Hrel redis_get_ok; [|autorewrite with world; look; exact T3].
  autorewrite with world. look.
  destruct (truthy (read (db w !! stateKey options))) eqn:Ex; cbn [negb when].
  - rewrite bind_ret.
    send Hrel redis_get_ok; [|autorewrite with world; look; exact T4].
    autorewrite with world. look.
    destruct (_ && _); cbn [when].
    + rewrite bind_assoc. send Hrel redis_set_ok.
      eexists. split; [reflexivity|].
      unfold logger_warn, process_on, logger_info, emit, bind.
      autorewrite with world. split; [lia|split; reflexivity].
    + rewrite bind_ret.
      eexists. split; [reflexivity|].
      unfold logger_warn, process_on, logger_info, emit, bind.
      autorewrite with world. split; [lia|split; reflexivity].
  - send Hrel redis_set_ok.
    send Hrel redis_get_ok; [|autorewrite with world; look; exact T4].
    autorewrite with world. look.
    destruct (_ && _); cbn [when].
    + rewrite bind_assoc. send Hrel redis_set_ok.
      eexists. split; [reflexivity|].
      unfold logger_warn, process_on, logger_info, emit, bind.
      autorewrite with world. split; [lia|split; reflexivity].
    + rewrite bind_ret.
      eexists. split; [reflexivity|].
      unfold logger_warn, process_on, logger_info, emit, bind.
      autorewrite with world. split; [lia|split; reflexivity].
Qed.

Lemma registered_db_other now d k :
  k <> instanceKey rt options -> k <> stateKey options ->
  registered_db now d !! k =
    sadd_db (instancesSetKey options) (instanceId rt)
      (sadd_db (servicesSetKey options) (serviceName options) d) !! k.
Proof.
  intros H1 H2. unfold registered_db.
  destruct (recovery_fires options d), (truthy (read (d !! stateKey options)));
    repeat rewrite lookup_insert_ne by congruence; reflexivity.
Qed.

(** X4: a registration that goes through adds the service name to the set of
    services and the instance id to the set of instances of the service, and
    removes nothing from either. *)
Theorem register_joins_sets w :
  reliable rt w ->
  set_or_absent (db w !! servicesSetKey options) ->
  set_or_absent (db w !! instancesSetKey options) ->
  0 < final_heartbeatTtl options ->
  str_or_absent (db w !! stateKey options) ->
  str_or_absent (db w !! signalKey options) ->
  exists w',
    register rt options w = (w', Ok tt) /\
    db w' !! servicesSetKey options =
      Some (ESet ({[serviceName options]} ∪ members_of (db w !! servicesSetKey options))) /\
    db w' !! instancesSetKey options =
      Some (ESet ({[instanceId rt]} ∪ members_of (db w !! instancesSetKey options))).
Proof.
  intros Hrel T1 T2 Httl T3 T4.
  destruct (register_db w Hrel T1 T2 Httl T3 T4) as (w' & E & _ & _ & D).
  exists w'. split; [exact E|]. rewrite D.
  rewrite !registered_db_other by key_ne. split.
  - rewrite sadd_db_other by key_ne. unfold sadd_db. now rewrite lookup_insert_eq.
  - unfold sadd_db at 1. rewrite lookup_insert_eq.
    now rewrite (sadd_db_other _ _ _ (instancesSetKey options)) by key_ne.
Qed.

(** X5: on a store whose state key is absent, or holds the empty string, a
    registration that goes through leaves the state running, stored without
    TTL, and [getState] then reports running. *)
Theorem register_initialises_state w :
  reliable rt w ->
  set_or_absent (db w !! servicesSetKey options) ->
  set_or_absent (db w !! instancesSetKey options) ->
  0 < final_heartbeatTtl options ->
  str_or_absent (db w !! signalKey options) ->
  state_unset options (db w) ->
  exists w' w'',
    register rt options w = (w', Ok tt) /\
    db w' !! stateKey options = Some (EStr "running" None) /\
    getState rt options w' = (w'', Ok running).
Proof.
  intros Hrel T1 T2 Httl T4 Hun.
  assert (T3 : str_or_absent (db w !! stateKey options)).
  { destruct Hun as [->|[ttl ->]]; exact I. }
  assert (Hf : truthy (read (db w !! stateKey options)) = false).
  { destruct Hun as [->|[ttl ->]]; reflexivity. }
  destruct (register_ok rt options w Hrel T1 T2 Httl T3 T4) as (w' & E & Hle & S & _).
  rewrite Hf in S. cbn [negb orb] in S.
  pose proof (getState_ok rt options w' (Hrel _ Hle)) as G.
  rewrite S in G. specialize (G I).
  eexists w', _. split; [exact E|]. split; [exact S|exact G].
Qed.

End RegistrationEffects.

(** ** Registration: the termination hooks *)

Section Hooks.
Variable rt : runtime.
Variable options : ServiceControllerOptions.

Definition hooks_iff_success (w : world) (res : world * outcome unit) : Prop :=
  (forall s r, In (On s r) (since w res.1) ->
     res.2 = Ok tt /\ (s = "SIGINT" \/ s = "SIGTERM") /\ r = s) /\
  (res.2 = Ok tt ->
     In (On "SIGINT" "SIGINT") (since w res.1) /\
     In (On "SIGTERM" "SIGTERM") (since w res.1)).

Ltac hooks_leaf w :=
  solve
  [ unfold hooks_iff_success; cbn [fst snd]; events w; split;
    [ intros s r Hin; cbn [In] in Hin;
      repeat (destruct Hin as [Hin|Hin]; [try discriminate Hin|]);
      try contradiction; injection Hin as <- <-; auto
    | intros Hok; first [discriminate Hok | cbn [In]; split; auto 12] ] ].

(** X6: [register] installs its two termination hooks, for SIGINT and for
    SIGTERM, each bound to a shutdown with the signal's name as reason, exactly
    when it returns normally: a registration rejected by the store installs
    none. *)
Theorem register_hooks_iff_success w :
  (forall s r, In (On s r) (since w (register rt options w).1) ->
     (register rt options w).2 = Ok tt /\ (s = "SIGINT" \/ s = "SIGTERM") /\ r = s) /\
  ((register rt options w).2 = Ok tt ->
     In (On "SIGINT" "SIGINT") (since w (register rt options w).1) /\
     In (On "SIGTERM" "SIGTERM") (since w (register rt options w).1)).
Proof.
  change (hooks_iff_success w (register rt options w)).
  unfold register. rewrite bind_now.
  set (blob := JSON_stringify rt _).
  apply rule_sadd; [hooks_leaf w|intros T1; cbv beta].
  apply rule_sadd; [hooks_leaf w|intros T2; cbv beta].
  apply rule_set_ex; [hooks_leaf w|intros Httl; cbv beta].
  apply rule_get; [hooks_leaf w|intros T3; cbv beta].
  destruct (negb _); cbn [when].
  - apply rule_set; [hooks_leaf w|].
    apply rule_get; [hooks_leaf w|intros T4; cbv beta].
    destruct (_ && _); cbn [when].
    + rewrite bind_assoc. apply rule_set; [hooks_leaf w|]. cbv beta.
      unfold logger_warn, process_on, logger_info. rewrite !bind_emit. unfold emit.
      hooks_leaf w.
    + rewrite bind_ret. unfold process_on, logger_info. rewrite !bind_emit. unfold emit.
      hooks_leaf w.
  - rewrite bind_ret.
    apply rule_get; [hooks_leaf w|intros T4; cbv beta].
    destruct (_ && _); cbn [when].
    + rewrite bind_assoc. apply rule_set; [hooks_leaf w|]. cbv beta.
      unfold logger_warn, process_on, logger_info. rewrite !bind_emit. unfold emit.
      hooks_leaf w.
    + rewrite bind_ret. unfold process_on, logger_info. rewrite !bind_emit. unfold emit.
      hooks_leaf w.
Qed.

End Hooks.

(** ** The signal channel: unrecognized values and failures *)

Section SignalEdges.
Variable rt : runtime.
Variable options : ServiceControllerOptions.

(** X7: with no signal pending, or with the empty string as signal,
    [applySignal] only reads: it returns none and the keyspace is untouched
    (an empty signal is not deleted). With any other value that is not a case
    variant of pause, resume or stop, it deletes the signal key, warns and
    returns none, leaving every other key, the state included, as it was. *)
Theorem applySignal_unrecognized w :
  reliable rt w ->
  str_or_absent (db w !! signalKey options) ->
  (truthy (read (db w !! signalKey options)) = false ->
   exists w1,
     applySignal rt options w = (w1, Ok none) /\
     db w1 = db w /\
     since w w1 = [Cmd (GET (signalKey options)) true]) /\
  (forall s ttl,
     db w !! signalKey options = Some (EStr s ttl) ->
     s <> "" ->
     toLowerCase s <> "pause" -> toLowerCase s <> "resume" -> toLowerCase s <> "stop" ->
     exists w1,
       applySignal rt options w = (w1, Ok none) /\
       db w1 = delete (signalKey options) (db w) /\
       since w w1 =
         [ Cmd (GET (signalKey options)) true;
           Cmd (DEL (signalKey options)) true;
           Log Warn "Unknown signal received" ]).
Proof.
  intros Hrel Ht.
  destruct (applySignal_applies rt options w Hrel Ht) as (sig & w1 & E & A).
  split.
  - intros Hf. destruct A as [H|s ttl k Hs Hk Hl st d1 d2|s ttl Hs Hne Hp Hr Hst].
    + eexists. split; [exact E|]. split; [reflexivity|]. now apply since_app.
    + rewrite Hs in Hf. simpl in Hf. destruct s; [destruct k; discriminate|discriminate].
    + rewrite Hs in Hf. simpl in Hf. destruct s; [congruence|discriminate].
  - intros s ttl Hs Hne Hp Hr Hst.
    destruct A as [H|s' ttl' k Hs' Hk Hl st d1 d2|s' ttl' Hs' Hne' Hp' Hr' Hst'].
    + rewrite Hs in H. simpl in H. destruct s; [congruence|discriminate].
    + assert (s' = s) as -> by congruence. destruct k; simpl in Hl; congruence.
    + eexists. split; [exact E|]. split; [reflexivity|].
      apply since_app. simpl. now rewrite <- !app_assoc.
Qed.

(** The deletion of the signal was issued between [w] and [w'], whatever
    became of it. *)
Definition deletion_issued (w w' : world) : Prop :=
  exists ok, In (Cmd (DEL (signalKey options)) ok) (since w w').

Definition deletes_signal_last (w : world) (res : world * outcome SignalKind) : Prop :=
  (~ deletion_issued w res.1 ->
     db res.1 !! signalKey options = db w !! signalKey options) /\
  (deletion_issued w res.1 ->
     (forall c ok, In (Cmd c ok) (since w res.1) ->
        c <> DEL (signalKey options) -> ok = true) /\
     (forall s ttl k,
        db w !! signalKey options = Some (EStr s ttl) ->
        k <> none -> toLowerCase s = signal_name k ->
        db res.1 !! stateKey options =
          Some (EStr (state_name (target_state k)) None))).

Ltac no_deletion w :=
  solve
  [ unfold deletes_signal_last, deletion_issued, ret; cbn [fst snd]; events w;
    split;
    [ intros _; autorewrite with world; look; reflexivity
    | intros [ok Hin]; exfalso; cbn [In] in Hin; intuition discriminate ] ].

Ltac deletion_sent w :=
  solve
  [ unfold deletes_signal_last, deletion_issued, ret; cbn [fst snd]; events w;
    split;
    [ intros Hno; exfalso; apply Hno; eexists; cbn [In]; eauto 6
    | intros _; split;
      [ intros c ok Hin Hc; cbn [In] in Hin;
        repeat destruct Hin as [Hin|Hin]; simplify_eq; congruence
      | intros s ttl k Hs Hk Hl; autorewrite with world; look;
        rewrite ?lookup_insert_eq;
        repeat match goal with
        | H : context [db w !! signalKey options] |- _ =>
            lazymatch H with Hs => fail | _ => rewrite Hs in H; cbn in H end
        end;
        destruct k; cbn in Hl |- *; congruence ] ] ].

(** X8: [applySignal] deletes the signal last. In every run, however it ends:
    if the deletion of the signal key was never issued, the signal key holds
    what it held, so the signal is still there for the next poll; and if the
    deletion was issued, with whatever outcome, every command before it has
    succeeded, so that for a pause, resume or stop signal the state key
    already holds the state the signal asks for. *)
Theorem applySignal_deletes_signal_last w :
  (~ deletion_issued w (applySignal rt options w).1 ->
     db (applySignal rt options w).1 !! signalKey options = db w !! signalKey options) /\
  (deletion_issued w (applySignal rt options w).1 ->
     (forall c ok, In (Cmd c ok) (since w (applySignal rt options w).1) ->
        c <> DEL (signalKey options) -> ok = true) /\
     (forall s ttl k,
        db w !! signalKey options = Some (EStr s ttl) ->
        k <> none -> toLowerCase s = signal_name k ->
        db (applySignal rt options w).1 !! stateKey options =
          Some (EStr (state_name (target_state k)) None))).
Proof.
  change (deletes_signal_last w (applySignal rt options w)).
  unfold applySignal.
  apply rule_get; [no_deletion w|intros T; cbv beta].
  destruct (negb _) eqn:Et; [no_deletion w|].
  destruct (String.eqb_spec (toLowerCase (default "" (read (db w !! signalKey options))))
              "pause") as [Hp|Hp];
    [|destruct (String.eqb_spec
                  (toLowerCase (default "" (read (db w !! signalKey options)))) "resume")
        as [Hr|Hr];
      [|destruct (String.eqb_spec
                    (toLowerCase (default "" (read (db w !! signalKey options)))) "stop")
          as [Hst|Hst]]].
  1-3: apply rule_set; [no_deletion w|]; cbv beta.
  all: (apply rule_del; [deletion_sent w|]); cbv beta;
       unfold logger_warn; rewrite bind_emit; deletion_sent w.
Qed.

End SignalEdges.

(** ** The pause loop *)

Definition is_sleep (e : event) : bool :=
  match e with Sleep _ => true | _ => false end.

(** The codec never reads the text it writes for an object as [null]. *)
Definition codec_keeps_objects (rt : runtime) : Prop :=
  forall o, JSON_parse rt (JSON_stringify rt (JObj o)) <> Some JNull.

Lemma codec_objects_steady o : Codec.parse (Codec.stringify (JObj o)) <> Some JNull.
Proof.
  unfold Codec.parse.
  set (s := Codec.stringify (JObj o)).
  replace (2 * String.length s + 2)%nat with (S (2 * String.length s + 1)) by lia.
  subst s. cbn [Codec.stringify]. 
  change ("{" +:+ ?x) with (String "{" x).
  set (rest := String.concat _ _ +:+ "}").
  cbn [Codec.parse_value Codec.skip_ws Codec.is_space].
  change (Codec.is_space "{") with false. cbv iota.
  change (Ascii.eqb "{" "{") with true. cbv iota.
  destruct (Codec.skip_ws rest) as [|c t].
  - destruct (Codec.parse_members _ rest) as [[o' t']|]; [|discriminate].
    destruct (Codec.skip_ws t'); discriminate.
  - destruct c as [[] [] [] [] [] [] [] []];
      try (destruct (Codec.parse_members _ rest) as [[o' t']|]; [|discriminate];
           destruct (Codec.skip_ws t'); discriminate).
    destruct (Codec.skip_ws t); discriminate.
Qed.

Section PauseLoop.
Variable rt : runtime.
Variable options : ServiceControllerOptions.

(** The descriptor a paused instance stores at each iteration. *)
Definition paused_descriptor (w : world) : obj :=
  let payload := parse_payload rt (read (db w !! instanceKey rt options)) in
  heartbeat_body rt options payload (started_of payload) (wall_clock rt (ticks w)) paused.

(** The world after the heartbeat of an iteration. *)
Definition beaten (w : world) : world :=
  let blob := JSON_stringify rt (JObj (paused_descriptor w)) in
  sent (SET (instanceKey rt options) blob (Some (final_heartbeatTtl options))) true
    (<[instanceKey rt options := EStr blob (Some (final_heartbeatTtl options))]> (db w))
    (sent (GET (instanceKey rt options)) true (db w) (ticked w)).

Lemma heartbeat_paused w :
  reliable rt w ->
  str_or_absent (db w !! instanceKey rt options) ->
  0 < final_heartbeatTtl options ->
  parse_payload rt (read (db w !! instanceKey rt options)) <> JNull ->
  heartbeat rt options (Some paused) w = (beaten w, Ok tt).
Proof.
  intros Hrel T1 Httl Hp. unfold heartbeat. rewrite bind_now.
  send Hrel redis_get_ok; [|exact T1].
  autorewrite with world.
  rewrite (bind_ok _ _ _ _ _ (payload_startedAt_ok _ _ Hp)).
  rewrite bind_ret, redis_set_ex_ok; [reflexivity|rel Hrel|exact Httl].
Qed.

Lemma parse_payload_own o :
  codec_keeps_objects rt ->
  parse_payload rt (Some (JSON_stringify rt (JObj o))) <> JNull.
Proof.
  intros Hc. unfold parse_payload. destruct (truthy _); [|discriminate].
  cbn [default from_option id]. specialize (Hc o).
  destruct (JSON_parse rt _) as [[]|]; simpl; congruence.
Qed.

(** The world after an iteration that found the state paused and nothing to
    apply. *)
Definition slept (w : world) : world :=
  logged (Sleep (final_pollMs options))
    (sent (GET (stateKey options)) true (db (beaten w))
       (sent (GET (signalKey options)) true (db (beaten w)) (beaten w))).

Lemma pause_loop_sleeps fuel w ttl :
  reliable rt w ->
  db w !! stateKey options = Some (EStr "paused" ttl) ->
  str_or_absent (db w !! signalKey options) ->
  truthy (read (db w !! signalKey options)) = false ->
  str_or_absent (db w !! instanceKey rt options) ->
  0 < final_heartbeatTtl options ->
  parse_payload rt (read (db w !! instanceKey rt options)) <> JNull ->
  pause_loop rt options (S fuel) w = pause_loop rt options fuel (slept w).
Proof.
  intros Hrel Hst Tsig Hsig Tinst Httl Hp. cbn [pause_loop].
  rewrite (bind_ok _ _ _ _ _ (heartbeat_paused w Hrel Tinst Httl Hp)).
  assert (Hrel1 : reliable rt (beaten w))
    by (apply (reliable_later rt w); [assumption|unfold beaten; autorewrite with world; lia]).
  assert (Hsig1 : db (beaten w) !! signalKey options = db w !! signalKey options)
    by (unfold beaten; autorewrite with world; now look).
  assert (Hst1 : db (beaten w) !! stateKey options = Some (EStr "paused" ttl))
    by (unfold beaten; autorewrite with world; look; exact Hst).
  destruct (applySignal_applies rt options (beaten w) Hrel1) as (sig & w1 & E & A);
    [now rewrite Hsig1|].
  destruct A as [H|s t k Hs|s t Hs Hne];
    [|rewrite Hsig1 in Hs; rewrite Hs in Hsig; simpl in Hsig;
      destruct s; [destruct k; discriminate|discriminate]
     |rewrite Hsig1 in Hs; rewrite Hs in Hsig; simpl in Hsig;
      destruct s; [congruence|discriminate]].
  rewrite (bind_ok _ _ _ _ _ E).
  erewrite bind_ok; [|apply getState_ok; [apply Hrel1; autorewrite with world; lia|]].
  2:{ autorewrite with world. now rewrite Hst1. }
  autorewrite with world. rewrite Hst1. reflexivity.
Qed.


(** The instance key holds a descriptor of status paused, with the heartbeat
    TTL. *)
Definition descriptor_paused (d : gmap string entry) : Prop :=
  exists body,
    d !! instanceKey rt options =
      Some (EStr (JSON_stringify rt (JObj body)) (Some (final_heartbeatTtl options))) /\
    obj_get "status" body = Some (JStr "paused").

Lemma slept_descriptor w : descriptor_paused (db (slept w)).
Proof.
  exists (paused_descriptor w). unfold slept, beaten. autorewrite with world.
  split; [apply lookup_insert_eq|].
  unfold paused_descriptor, heartbeat_body. literal. reflexivity.
Qed.

Lemma slept_trace w :
  trace (slept w) = trace w ++
    [ Cmd (GET (instanceKey rt options)) true;
      Cmd (SET (instanceKey rt options) (JSON_stringify rt (JObj (paused_descriptor w)))
             (Some (final_heartbeatTtl options))) true;
      Cmd (GET (signalKey options)) true;
      Cmd (GET (stateKey options)) true;
      Sleep (final_pollMs options) ].
Proof. unfold slept, beaten. autorewrite with world. now rewrite <- !app_assoc. Qed.

Lemma pause_loop_pending fuel :
  codec_keeps_objects rt ->
  0 < final_heartbeatTtl options ->
  forall w ttl,
    reliable rt w ->
    db w !! stateKey options = Some (EStr "paused" ttl) ->
    str_or_absent (db w !! signalKey options) ->
    truthy (read (db w !! signalKey options)) = false ->
    str_or_absent (db w !! instanceKey rt options) ->
    parse_payload rt (read (db w !! instanceKey rt options)) <> JNull ->
    exists w' new,
      pause_loop rt options fuel w = (w', Pending) /\
      trace w' = trace w ++ new /\
      List.filter is_sleep new = repeat (Sleep (final_pollMs options)) fuel /\
      length (List.filter (is_write (instanceKey rt options)) new) = fuel /\
      db w' !! stateKey options = Some (EStr "paused" ttl) /\
      db w' !! signalKey options = db w !! signalKey options /\
      (descriptor_paused (db w) \/ fuel <> 0%nat -> descriptor_paused (db w')).
Proof.
  intros Hc Httl. induction fuel as [|fuel IH]; intros w ttl Hrel Hst Tsig Hsig Tinst Hp.
  - exists w, []. rewrite app_nil_r. repeat split; try reflexivity; try assumption.
    intros [H|H]; [exact H|congruence].
  - rewrite (pause_loop_sleeps fuel w ttl Hrel Hst Tsig Hsig Tinst Httl Hp).
    assert (Hsig1 : db (slept w) !! signalKey options = db w !! signalKey options)
      by (unfold slept, beaten; autorewrite with world; now look).
    assert (Hinst1 : db (slept w) !! instanceKey rt options =
              Some (EStr (JSON_stringify rt (JObj (paused_descriptor w)))
                      (Some (final_heartbeatTtl options))))
      by (unfold slept, beaten; autorewrite with world; apply lookup_insert_eq).
    destruct (IH (slept w) ttl) as (w' & new & E & T & Hsl & Hhb & S1 & S2 & D).
    + apply (reliable_later rt w); [assumption|].
      unfold slept, beaten. autorewrite with world. lia.
    + unfold slept, beaten. autorewrite with world. look. exact Hst.
    + now rewrite Hsig1.
    + now rewrite Hsig1.
    + now rewrite Hinst1.
    + rewrite Hinst1. cbn [read]. now apply parse_payload_own.
    + eexists w', _. split; [exact E|]. split; [rewrite T, slept_trace, <- app_assoc; reflexivity|].
      rewrite !List.filter_app, length_app, Hsl, Hhb.
      cbn [List.filter is_sleep is_write app length].
      case_bool_decide; [|congruence]. cbn [length].
      split; [reflexivity|]. split; [reflexivity|]. split; [exact S1|].
      split; [now rewrite S2|]. intros _. apply D. left. apply slept_descriptor.
Qed.

(** X9: a paused service with no signal pending stays in [waitIfPaused]: for
    every number of iterations allowed the call is still pending after them,
    and by then it has slept the poll interval that many times and stored
    its descriptor that many times, with status paused and the heartbeat
    TTL, without touching the state. *)
Theorem waitIfPaused_keeps_waiting fuel w ttl :
  codec_keeps_objects rt ->
  0 < final_heartbeatTtl options ->
  reliable rt w ->
  db w !! stateKey options = Some (EStr "paused" ttl) ->
  str_or_absent (db w !! signalKey options) ->
  truthy (read (db w !! signalKey options)) = false ->
  str_or_absent (db w !! instanceKey rt options) ->
  parse_payload rt (read (db w !! instanceKey rt options)) <> JNull ->
  exists w',
    waitIfPaused rt options fuel w = (w', Pending) /\
    List.filter is_sleep (since w w') = repeat (Sleep (final_pollMs options)) fuel /\
    length (List.filter (is_write (instanceKey rt options)) (since w w')) = fuel /\
    db w' !! stateKey options = Some (EStr "paused" ttl) /\
    (fuel <> 0%nat -> descriptor_paused (db w')).
Proof.
  intros Hc Httl Hrel Hst Tsig Hsig Tinst Hp.
  destruct (applySignal_getState rt options w Hrel Tsig) as (sig & w1 & E1 & A1 & E2);
    [now rewrite Hst|].
  destruct A1 as [H|s t k Hs|s t Hs Hne];
    [|rewrite Hs in Hsig; simpl in Hsig;
      destruct s; [destruct k; discriminate|discriminate]
     |rewrite Hs in Hsig; simpl in Hsig; destruct s; [congruence|discriminate]].
  autorewrite with world in E2. rewrite Hst in E2. change (state_read _) with paused in E2.
  unfold waitIfPaused.
  rewrite (bind_ok _ _ _ _ _ E1), (bind_ok _ _ _ _ _ E2). cbn [is_state negb].
  unfold logger_info. rewrite bind_emit.
  set (w0 := logged _ _).
  destruct (pause_loop_pending fuel Hc Httl w0 ttl)
    as (w' & new & E & T & Hsl & Hhb & S1 & _ & D).
  - apply (reliable_later rt w); [assumption|]. subst w0. autorewrite with world. lia.
  - subst w0. autorewrite with world. exact Hst.
  - subst w0. now autorewrite with world.
  - subst w0. now autorewrite with world.
  - subst w0. now autorewrite with world.
  - subst w0. now autorewrite with world.
  - exists w'. split; [exact E|].
    erewrite since_app
      by (rewrite T; subst w0; autorewrite with world; rewrite <- !app_assoc; reflexivity).
    cbn [app List.filter is_sleep is_write].
    split; [exact Hsl|]. split; [exact Hhb|]. split; [exact S1|].
    intros Hn. apply D. now right.
Qed.


(** X10: an iteration of the pause loop that finds a resume or a stop signal
    (in any case) stores the paused descriptor, applies the signal and leaves
    the loop without sleeping: the state is then running or stopping, the
    signal is consumed, and the resumption, only, is logged as such. *)
Theorem pause_loop_leaves_on_signal fuel w s ttl k :
  reliable rt w ->
  db w !! signalKey options = Some (EStr s ttl) ->
  toLowerCase s = signal_name k ->
  k = resume \/ k = stop ->
  str_or_absent (db w !! instanceKey rt options) ->
  0 < final_heartbeatTtl options ->
  parse_payload rt (read (db w !! instanceKey rt options)) <> JNull ->
  exists w',
    pause_loop rt options (S fuel) w = (w', Ok tt) /\
    db w' !! stateKey options = Some (EStr (state_name (target_state k)) None) /\
    db w' !! signalKey options = None /\
    descriptor_paused (db w') /\
    List.filter is_sleep (since w w') = [] /\
    (In (Log Info "Resumed from pause") (since w w') <-> k = resume).
Proof.
  intros Hrel Hs Hl Hk Tinst Httl Hp. cbn [pause_loop].
  rewrite (bind_ok _ _ _ _ _ (heartbeat_paused w Hrel Tinst Httl Hp)).
  assert (Hrel1 : reliable rt (beaten w))
    by (apply (reliable_later rt w); [assumption|unfold beaten; autorewrite with world; lia]).
  assert (Hsig1 : db (beaten w) !! signalKey options = Some (EStr s ttl))
    by (unfold beaten; autorewrite with world; look; exact Hs).
  assert (Hinst1 : db (beaten w) !! instanceKey rt options =
            Some (EStr (JSON_stringify rt (JObj (paused_descriptor w)))
                    (Some (final_heartbeatTtl options))))
    by (unfold beaten; autorewrite with world; apply lookup_insert_eq).
  destruct (applySignal_applies rt options (beaten w) Hrel1) as (sig & w1 & E & A);
    [now rewrite Hsig1|].
  destruct A as [H|s' t k' Hs' Hk' Hl' st d1 d2|s' t Hs' Hne Hp' Hr' Hst'].
  { rewrite Hsig1 in H. simpl in H. destruct s; [destruct Hk; subst k; discriminate|discriminate]. }
  2:{ assert (s' = s) as -> by congruence. destruct Hk; subst k; simpl in Hl; congruence. }
  assert (s' = s) as -> by congruence.
  assert (k' = k) as ->.
  { rewrite Hl in Hl'. destruct Hk; subst k; destruct k'; simpl in Hl'; congruence. }
  rewrite (bind_ok _ _ _ _ _ E).
  set (w1 := logged _ _) in *.
  assert (Hst1 : db w1 !! stateKey options = Some (EStr (state_name (target_state k)) None)).
  { subst w1 d2 d1 st. autorewrite with world. look. apply lookup_insert_eq. }
  erewrite bind_ok; [|apply getState_ok; [apply Hrel1; subst w1; autorewrite with world; lia|]].
  2:{ now rewrite Hst1. }
  rewrite Hst1.
  assert (Hd : forall W, db W = db w1 -> descriptor_paused (db W)).
  { intros W ->. exists (paused_descriptor w). subst w1 d2 d1 st. autorewrite with world.
    look. split; [exact Hinst1|].
    unfold paused_descriptor, heartbeat_body. literal. reflexivity. }
  destruct Hk; subst k; cbn [target_state state_name state_read read is_stop is_state orb].
  - change (state_read _) with running. cbn [is_state orb is_stop].
    unfold logger_info, emit. eexists. split; [reflexivity|].
    autorewrite with world. split; [exact Hst1|]. split; [subst w1 d2; autorewrite with world; apply lookup_delete_eq|].
    split; [apply Hd; reflexivity|].
    erewrite since_app
      by (subst w1; unfold beaten; autorewrite with world; rewrite <- !app_assoc; reflexivity).
    cbn [List.filter is_sleep app]. split; [reflexivity|].
    split; [reflexivity|]. intros _. cbn [In]. auto 12.
  - change (state_read _) with stopping. cbn [is_state orb is_stop].
    unfold ret. eexists. split; [reflexivity|].
    autorewrite with world. split; [exact Hst1|]. split; [subst w1 d2; autorewrite with world; apply lookup_delete_eq|].
    split; [apply Hd; reflexivity|].
    erewrite since_app
      by (subst w1; unfold beaten; autorewrite with world; rewrite <- !app_assoc; reflexivity).
    cbn [List.filter is_sleep app]. split; [reflexivity|].
    split; [|discriminate]. cbn [In]. intuition discriminate.
Qed.

End PauseLoop.

(** ** Heartbeats: what the descriptor becomes *)

(** The names of the fields every heartbeat writes. *)
Definition heartbeat_fields : list string :=
  [ "serviceName"; "appType"; "instanceId"; "hostname"; "pid";
    "startedAt"; "lastSeen"; "status"; "tags"; "meta" ].

Section HeartbeatFields.
Variable rt : runtime.
Variable options : ServiceControllerOptions.

(** The descriptor of an instance that starts at [now] with status [status]. *)
Definition fresh_descriptor (now : string) (status : ServiceState) : obj :=
  identity_props rt options ++
  [ ("startedAt", JStr now);
    ("lastSeen", JStr now);
    ("status", JStr (state_name status));
    ("tags", tags_value options);
    ("meta", meta_value options) ].

(** X11: a heartbeat over a descriptor that is gone (expired or never
    written), empty, or not JSON starts the descriptor afresh: it stores,
    with the heartbeat TTL, the descriptor of an instance started now, whose
    status is the override or else the state of the service. *)
Theorem heartbeat_recreates_descriptor statusOverride w :
  reliable rt w ->
  str_or_absent (db w !! instanceKey rt options) ->
  str_or_absent (db w !! stateKey options) ->
  0 < final_heartbeatTtl options ->
  (truthy (read (db w !! instanceKey rt options)) = false \/
   exists raw, read (db w !! instanceKey rt options) = Some raw /\ JSON_parse rt raw = None) ->
  exists w',
    heartbeat rt options statusOverride w = (w', Ok tt) /\
    db w' !! instanceKey rt options =
      Some (EStr (JSON_stringify rt
                    (JObj (fresh_descriptor (wall_clock rt (ticks w))
                             (default (state_read (db w !! stateKey options))
                                statusOverride))))
              (Some (final_heartbeatTtl options))).
Proof.
  intros Hrel T1 T2 Httl Hgone.
  assert (Hp : parse_payload rt (read (db w !! instanceKey rt options)) = JObj []).
  { unfold parse_payload. destruct Hgone as [->|(raw & -> & Hr)]; [reflexivity|].
    cbn [default from_option id]. rewrite Hr. now destruct (truthy _). }
  destruct (heartbeat_ok rt options statusOverride w Hrel T1 T2 Httl) as (w' & E & D);
    [rewrite Hp; discriminate|].
  exists w'. split; [exact E|]. rewrite D, lookup_insert_eq, Hp. reflexivity.
Qed.

Lemma obj_get_assign_other k base props :
  ~ In k (map fst props) -> obj_get k (assign base props) = obj_get k base.
Proof.
  unfold assign. revert base. induction props as [|[k' v'] props IH]; intros base Hk.
  - reflexivity.
  - cbn [fold_left fst snd]. rewrite IH by (intros H; apply Hk; now right).
    apply obj_get_set_ne. intros ->. apply Hk. now left.
Qed.

(** X12: a heartbeat over a stored descriptor writes ten fields and keeps
    the others. It overwrites serviceName, appType, instanceId, hostname and
    pid with the controller's own, tags and meta with the configured ones
    (empty when not configured), lastSeen with the current time and status
    with the override or else the state of the service; startedAt is the
    stored one, or the current time when the stored one is missing or null.
    Every field of another name is kept as it is stored. *)
Theorem heartbeat_merges_descriptor statusOverride w stored :
  reliable rt w ->
  str_or_absent (db w !! instanceKey rt options) ->
  str_or_absent (db w !! stateKey options) ->
  0 < final_heartbeatTtl options ->
  parse_payload rt (read (db w !! instanceKey rt options)) = JObj stored ->
  exists w' body,
    heartbeat rt options statusOverride w = (w', Ok tt) /\
    db w' !! instanceKey rt options =
      Some (EStr (JSON_stringify rt (JObj body)) (Some (final_heartbeatTtl options))) /\
    obj_get "serviceName" body = Some (JStr (serviceName options)) /\
    obj_get "appType" body = Some (JStr (appType options)) /\
    obj_get "instanceId" body = Some (JStr (instanceId rt)) /\
    obj_get "hostname" body = Some (JStr (os_hostname rt)) /\
    obj_get "pid" body = Some (JNum (Z.of_N (process_pid rt))) /\
    obj_get "lastSeen" body = Some (JStr (wall_clock rt (ticks w))) /\
    obj_get "status" body =
      Some (JStr (state_name (default (state_read (db w !! stateKey options))
                                statusOverride))) /\
    obj_get "startedAt" body =
      Some (nullish_or (obj_get "startedAt" stored) (JStr (wall_clock rt (ticks w)))) /\
    obj_get "tags" body = Some (JArr (JStr <$> default [] (tags options))) /\
    obj_get "meta" body = Some (JObj (default [] (meta options))) /\
    (forall k, ~ In k heartbeat_fields -> obj_get k body = obj_get k stored).
Proof.
  intros Hrel T1 T2 Httl Hp.
  destruct (heartbeat_ok rt options statusOverride w Hrel T1 T2 Httl) as (w' & E & D);
    [rewrite Hp; discriminate|].
  eexists w', _. split; [exact E|]. split; [rewrite D; apply lookup_insert_eq|].
  rewrite Hp. unfold heartbeat_body.
  repeat (split; [literal; reflexivity|]).
  intros k Hk. rewrite obj_get_assign_other; [reflexivity|exact Hk].
Qed.

(** X13: a stored descriptor whose text is the JSON value null is not taken
    for an empty one: reading its startedAt is a TypeError. [heartbeat]
    rejects with it after its read, writing nothing; [shutdown] logs it and
    returns normally, having set the state to stopping but neither rewritten
    the descriptor nor left the instances set. *)
Theorem null_descriptor_not_recovered w raw ttl :
  reliable rt w ->
  db w !! instanceKey rt options = Some (EStr raw ttl) ->
  raw <> "" ->
  JSON_parse rt raw = Some JNull ->
  (forall statusOverride,
     exists w',
       heartbeat rt options statusOverride w = (w', Throw TypeError) /\
       db w' = db w) /\
  (forall reason,
     exists w',
       shutdown rt options reason w = (w', Ok tt) /\
       db w' = <[stateKey options := EStr "stopping" None]> (db w) /\
       In (Log Error "Error during shutdown") (since w w')).
Proof.
  intros Hrel Hraw Hne Hnull.
  assert (Ht : truthy (Some raw) = true) by (destruct raw; [congruence|reflexivity]).
  assert (Hp : parse_payload rt (Some raw) = JNull).
  { unfold parse_payload. rewrite Ht. cbn [default from_option id]. now rewrite Hnull. }
  split.
  - intros so. unfold heartbeat. rewrite bind_now.
    send Hrel redis_get_ok; [|autorewrite with world; now rewrite Hraw].
    autorewrite with world. rewrite Hraw. cbn [read]. rewrite Hp.
    eexists. split; reflexivity.
  - intros reason. unfold shutdown, try_catch_finally, shutdown_body.
    send Hrel redis_set_ok.
    send Hrel redis_get_ok; [|autorewrite with world; look; now rewrite Hraw].
    autorewrite with world. look. rewrite Hraw. cbn [read]. rewrite Hp.
    cbn [payload_startedAt]. unfold throw, bind, logger_error, logger_info, emit.
    eexists. split; [reflexivity|]. autorewrite with world. split; [reflexivity|].
    erewrite since_app by (autorewrite with world; rewrite <- !app_assoc; reflexivity).
    cbn [app In]. auto.
Qed.

End HeartbeatFields.

(** ** Operations in sequence *)

Lemma srem_db_members key member d :
  members_of (srem_db key member d !! key) = members_of (d !! key) ∖ {[member]}.
Proof.
  unfold srem_db. destruct (d !! key) as [[v ttl|s]|] eqn:E.
  - rewrite E. simpl. now rewrite difference_disjoint_L by apply disjoint_empty_l.
  - destruct (decide (s ∖ {[member]} = ∅)) as [He|He].
    + rewrite lookup_delete_eq. simpl. now rewrite He.
    + now rewrite lookup_insert_eq.
  - rewrite E. simpl. now rewrite difference_disjoint_L by apply disjoint_empty_l.
Qed.

Section Sequences.
Variable rt : runtime.
Variable options : ServiceControllerOptions.

(** X14: a shutdown stops the whole service: after one instance has shut
    down, [shouldStop] answers true to every instance of the service, on
    whatever host it runs, as long as no signal is pending. *)
Theorem shutdown_stops_every_instance reason w :
  reliable rt w ->
  str_or_absent (db w !! instanceKey rt options) ->
  set_or_absent (db w !! instancesSetKey options) ->
  parse_payload rt (read (db w !! instanceKey rt options)) <> JNull ->
  str_or_absent (db w !! signalKey options) ->
  truthy (read (db w !! signalKey options)) = false ->
  exists w',
    shutdown rt options reason w = (w', Ok tt) /\
    forall rt', reliable rt' w' ->
      exists w'', shouldStop rt' options w' = (w'', Ok true).
Proof.
  intros Hrel T1 T2 Hp Tsig Hsig.
  destruct (shutdown_body_ok rt options reason w Hrel T1 T2 Hp)
    as (w1 & startedAt & lastSeen & E & D & _).
  exists (logged (Log Info "Shutdown complete") w1).
  split; [unfold shutdown, try_catch_finally; now rewrite E|].
  intros rt' Hrel'. set (w' := logged _ w1) in *.
  assert (Hst : db w' !! stateKey options = Some (EStr "stopping" None)).
  { subst w'. autorewrite with world. rewrite D. look. apply lookup_insert_eq. }
  assert (Hsg : db w' !! signalKey options = db w !! signalKey options).
  { subst w'. autorewrite with world. rewrite D. now look. }
  destruct (applySignal_getState rt' options w' Hrel') as (sig & w2 & E1 & A1 & E2);
    [now rewrite Hsg|now rewrite Hst|].
  eexists. rewrite (shouldStop_compose rt' options w' sig _ w2 _ E1 E2). f_equal. f_equal.
  destruct A1 as [H|s t k Hs|s t Hs Hne].
  - autorewrite with world. now rewrite Hst.
  - rewrite Hsg in Hs. rewrite Hs in Hsig. simpl in Hsig.
    destruct s; [destruct k; discriminate|discriminate].
  - rewrite Hsg in Hs. rewrite Hs in Hsig. simpl in Hsig.
    destruct s; [congruence|discriminate].
Qed.

(** X15: the start time survives heartbeats: when the codec reads back the
    descriptor a registration wrote, the first heartbeat after it stores a
    descriptor with the startedAt of the registration and the lastSeen of the
    heartbeat. *)
Theorem heartbeat_keeps_start_time statusOverride w :
  reliable rt w ->
  set_or_absent (db w !! servicesSetKey options) ->
  set_or_absent (db w !! instancesSetKey options) ->
  0 < final_heartbeatTtl options ->
  str_or_absent (db w !! stateKey options) ->
  str_or_absent (db w !! signalKey options) ->
  JSON_stringify rt (JObj (initial_descriptor rt options (wall_clock rt (ticks w)))) <> "" ->
  JSON_parse rt
    (JSON_stringify rt (JObj (initial_descriptor rt options (wall_clock rt (ticks w)))))
    = Some (JObj (initial_descriptor rt options (wall_clock rt (ticks w)))) ->
  exists w1 w2 body,
    register rt options w = (w1, Ok tt) /\
    heartbeat rt options statusOverride w1 = (w2, Ok tt) /\
    db w2 !! instanceKey rt options =
      Some (EStr (JSON_stringify rt (JObj body)) (Some (final_heartbeatTtl options))) /\
    obj_get "startedAt" body = Some (JStr (wall_clock rt (ticks w))) /\
    obj_get "lastSeen" body = Some (JStr (wall_clock rt (S (ticks w)))).
Proof.
  intros Hrel T1 T2 Httl T3 T4 Hne Hround.
  destruct (register_db rt options w Hrel T1 T2 Httl T3 T4) as (w1 & E1 & Hle & Hticks & D1).
  set (blob := JSON_stringify rt _) in *.
  assert (Hinst : db w1 !! instanceKey rt options =
                    Some (EStr blob (Some (final_heartbeatTtl options)))).
  { rewrite D1. unfold registered_db.
    destruct (recovery_fires options (db w)), (truthy (read (db w !! stateKey options)));
      repeat rewrite lookup_insert_ne by (apply not_eq_sym; key_ne); apply lookup_insert_eq. }
  assert (Hst : str_or_absent (db w1 !! stateKey options)).
  { rewrite D1. unfold registered_db.
    destruct (recovery_fires options (db w)), (truthy (read (db w !! stateKey options)));
      rewrite ?lookup_insert_eq; try exact I; look; exact T3. }
  assert (Hp : parse_payload rt (read (db w1 !! instanceKey rt options)) =
               JObj (initial_descriptor rt options (wall_clock rt (ticks w)))).
  { rewrite Hinst. cbn [read]. unfold parse_payload.
    assert (Ht : truthy (Some blob) = true) by (destruct blob; [congruence|reflexivity]).
    rewrite Ht. cbn [default from_option id]. now rewrite Hround. }
  destruct (heartbeat_ok rt options statusOverride w1) as (w2 & E2 & D2);
    [apply (reliable_later rt w); assumption|now rewrite Hinst|exact Hst|exact Httl
    |rewrite Hp; discriminate|].
  eexists w1, w2, _. split; [exact E1|]. split; [exact E2|].
  split; [rewrite D2; apply lookup_insert_eq|].
  rewrite Hp. unfold heartbeat_body. split; [literal; reflexivity|].
  literal. now rewrite Hticks.
Qed.


(** X16: registration and shutdown are inverse on the set of instances and
    not on the set of services: after a registration followed by a shutdown,
    the instances set holds what it held before, without the instance id (the
    ids of other instances stay), the service name is still among the
    services, the state is stopping and the descriptor is left to expire
    in 10 seconds. *)
Theorem register_then_shutdown reason w :
  codec_keeps_objects rt ->
  reliable rt w ->
  set_or_absent (db w !! servicesSetKey options) ->
  set_or_absent (db w !! instancesSetKey options) ->
  0 < final_heartbeatTtl options ->
  str_or_absent (db w !! stateKey options) ->
  str_or_absent (db w !! signalKey options) ->
  exists w1 w2 body,
    register rt options w = (w1, Ok tt) /\
    shutdown rt options reason w1 = (w2, Ok tt) /\
    members_of (db w2 !! instancesSetKey options) =
      members_of (db w !! instancesSetKey options) ∖ {[instanceId rt]} /\
    (serviceName options ∈ members_of (db w2 !! servicesSetKey options)) /\
    db w2 !! stateKey options = Some (EStr "stopping" None) /\
    db w2 !! instanceKey rt options =
      Some (EStr (JSON_stringify rt (JObj body)) (Some 10)).
Proof.
  intros Hc Hrel T1 T2 Httl T3 T4.
  destruct (register_db rt options w Hrel T1 T2 Httl T3 T4) as (w1 & E1 & Hle & _ & D1).
  set (blob := JSON_stringify rt (JObj (initial_descriptor rt options (wall_clock rt (ticks w))))).
  assert (Hinst : db w1 !! instanceKey rt options =
                    Some (EStr blob (Some (final_heartbeatTtl options)))).
  { rewrite D1. unfold registered_db.
    destruct (recovery_fires options (db w)), (truthy (read (db w !! stateKey options)));
      repeat rewrite lookup_insert_ne by (apply not_eq_sym; key_ne); apply lookup_insert_eq. }
  assert (Hsets : forall k, k <> instanceKey rt options -> k <> stateKey options ->
            db w1 !! k =
            sadd_db (instancesSetKey options) (instanceId rt)
              (sadd_db (servicesSetKey options) (serviceName options) (db w)) !! k).
  { intros k H1 H2. rewrite D1. now apply registered_db_other. }
  assert (Hins : db w1 !! instancesSetKey options =
            Some (ESet ({[instanceId rt]} ∪ members_of (db w !! instancesSetKey options)))).
  { rewrite Hsets by key_ne. unfold sadd_db at 1. rewrite lookup_insert_eq.
    now rewrite (sadd_db_other _ _ _ (instancesSetKey options)) by key_ne. }
  assert (Hsvc : db w1 !! servicesSetKey options =
            Some (ESet ({[serviceName options]} ∪ members_of (db w !! servicesSetKey options)))).
  { rewrite Hsets by key_ne. rewrite sadd_db_other by key_ne.
    unfold sadd_db. now rewrite lookup_insert_eq. }
  destruct (shutdown_body_ok rt options reason w1)
    as (w2 & startedAt & lastSeen & E2 & D2 & _).
  { apply (reliable_later rt w); assumption. }
  { now rewrite Hinst. }
  { now rewrite Hins. }
  { rewrite Hinst. cbn [read]. subst blob. now apply parse_payload_own. }
  eexists w1, (logged (Log Info "Shutdown complete") w2), _.
  split; [exact E1|]. split; [unfold shutdown, try_catch_finally; now rewrite E2|].
  autorewrite with world. rewrite D2.
  split; [|split; [|split]].
  - rewrite srem_db_members. look. rewrite Hins. cbn [members_of].
    apply set_eq. intros x. rewrite !elem_of_difference, elem_of_union, elem_of_singleton.
    tauto.
  - look. rewrite Hsvc. cbn [members_of]. apply elem_of_union_l. now apply elem_of_singleton.
  - look. apply lookup_insert_eq.
  - rewrite srem_db_other by key_ne. apply lookup_insert_eq.
Qed.

End Sequences.

(** ** The key schema across services *)

Fixpoint colon_free (s : string) : bool :=
  match s with
  | EmptyString => true
  | String c rest => negb (Ascii.eqb c ":") && colon_free rest
  end.

(** A name without colon ends at the first colon of a key. *)
Lemma colon_free_split a b x y :
  colon_free a = true -> colon_free b = true ->
  a +:+ String ":" x = b +:+ String ":" y -> a = b.
Proof.
  revert b. induction a as [|c a IH]; intros [|c' b] Ha Hb H; simpl in *.
  - reflexivity.
  - injection H as <- _. now rewrite Ascii.eqb_refl in Hb.
  - injection H as -> _. now rewrite Ascii.eqb_refl in Ha.
  - injection H as <- H.
    apply andb_prop in Ha as [_ Ha]. apply andb_prop in Hb as [_ Hb].
    f_equal. now apply IH.
Qed.

Section KeySchemaAcross.
Variable rt1 rt2 : runtime.
Variable o1 o2 : ServiceControllerOptions.

(** X17: the five keys of a controller are pairwise different, whatever the
    prefix, the service name and the instance id. *)
Theorem keys_pairwise_distinct :
  NoDup [ servicesSetKey o1; instancesSetKey o1; instanceKey rt1 o1;
          stateKey o1; signalKey o1 ].
Proof.
  repeat apply NoDup_cons_2; try apply NoDup_nil_2;
    rewrite ?not_elem_of_cons; repeat split; try apply not_elem_of_nil; key_ne.
Qed.

Ltac other_service Hp H1 H2 Hn :=
  let H := fresh "H" in
  intros H;
  unfold servicesSetKey, instancesSetKey, instanceKey, stateKey, signalKey in H;
  rewrite Hp in H; apply append_inv_head in H;
  first
    [ discriminate H
    | simpl in H; discriminate H
    | apply (append_inv_head ":service:") in H;
      apply Hn; exact (colon_free_split _ _ _ _ H1 H2 H)
    | apply (append_inv_head ":state:") in H; apply Hn; exact H
    | apply (append_inv_head ":signal:") in H; apply Hn; exact H ].

(** X18: two controllers with the same prefix, for services of different
    names that contain no colon, share the key of the services set and no
    other: no key of the first service (instances set, instance, state,
    signal) is a key of the second. *)
Theorem services_share_only_the_services_set :
  final_prefix o1 = final_prefix o2 ->
  colon_free (serviceName o1) = true ->
  colon_free (serviceName o2) = true ->
  serviceName o1 <> serviceName o2 ->
  servicesSetKey o1 = servicesSetKey o2 /\
  forall k1 k2,
    In k1 [ instancesSetKey o1; instanceKey rt1 o1; stateKey o1; signalKey o1 ] ->
    In k2 [ servicesSetKey o2; instancesSetKey o2; instanceKey rt2 o2;
            stateKey o2; signalKey o2 ] ->
    k1 <> k2.
Proof.
  intros Hp H1 H2 Hn. split; [unfold servicesSetKey; now rewrite Hp|].
  intros k1 k2 Hk1 Hk2. cbn [In] in Hk1, Hk2.
  destruct Hk1 as [<-|[<-|[<-|[<-|[]]]]];
    destruct Hk2 as [<-|[<-|[<-|[<-|[<-|[]]]]]];
    other_service Hp H1 H2 Hn.
Qed.

End KeySchemaAcross.

(** ** Shutdown and signals seen from outside *)

Section Observers.
Variable rt : runtime.
Variable options : ServiceControllerOptions.

Lemma shutdown_db reason w :
  db (shutdown rt options reason w).1 = db (shutdown_body rt options reason w).1.
Proof.
  unfold shutdown, try_catch_finally.
  destruct (shutdown_body rt options reason w) as [w1 [[]|e|]]; reflexivity.
Qed.

(** X19: [shutdown] stops the service before it cleans up: once its first
    command, the write of the state, has gone through, the state is stopping
    when it returns, whatever happens to the commands that follow. *)
Theorem shutdown_marks_stopping_first reason w :
  command_fails rt (issued w) = false ->
  db (shutdown rt options reason w).1 !! stateKey options = Some (EStr "stopping" None).
Proof.
  intros Hf. rewrite shutdown_db. unfold shutdown_body.
  rewrite (bind_ok _ _ _ _ _ (redis_set_ok rt _ _ w Hf)).
  match goal with
  | |- db (?m ?W).1 !! _ = _ =>
      assert (Hk : keeps (at_key (stateKey options) (eq (Some (EStr "stopping" None)))) m)
  end.
  { keeps_with key_ne; [keeps_startedAt key_ne|].
    match goal with |- context [match ?x with _ => _ end] => destruct x as [[]|] end;
      keeps_with key_ne. }
  symmetry. apply Hk. unfold at_key. autorewrite with world.
  now rewrite lookup_insert_eq.
Qed.

(** X20: an applied signal shows in the next heartbeat: after [applySignal]
    has applied pause, resume or stop, a heartbeat with no override stores a
    descriptor whose status is paused, running or stopping accordingly. *)
Theorem heartbeat_reports_applied_signal w s ttl k :
  reliable rt w ->
  db w !! signalKey options = Some (EStr s ttl) ->
  k <> none -> toLowerCase s = signal_name k ->
  str_or_absent (db w !! instanceKey rt options) ->
  0 < final_heartbeatTtl options ->
  parse_payload rt (read (db w !! instanceKey rt options)) <> JNull ->
  exists w1 w2 body,
    applySignal rt options w = (w1, Ok k) /\
    heartbeat rt options None w1 = (w2, Ok tt) /\
    db w2 !! instanceKey rt options =
      Some (EStr (JSON_stringify rt (JObj body)) (Some (final_heartbeatTtl options))) /\
    obj_get "status" body = Some (JStr (state_name (target_state k))).
Proof.
  intros Hrel Hs Hk Hl Tinst Httl Hp.
  destruct (applySignal_applies rt options w Hrel) as (sig & w1 & E1 & A1);
    [now rewrite Hs|].
  pose proof (applies_issued options w sig w1 A1) as Hle.
  pose proof (applies_state options w sig w1 A1) as Hst.
  assert (Hinst : db w1 !! instanceKey rt options = db w !! instanceKey rt options).
  { destruct A1 as [H|s' t k' Hs' Hk' Hl' st d1 d2|s' t Hs' Hne Hp' Hr' Hst'];
      try subst d2 d1 st; autorewrite with world; now look. }
  assert (sig = k) as ->.
  { destruct A1 as [H|s' t k' Hs' Hk' Hl' st d1 d2|s' t Hs' Hne Hp' Hr' Hst'].
    - rewrite Hs in H. simpl in H. destruct s; [destruct k; discriminate|discriminate].
    - assert (s' = s) as -> by congruence.
      rewrite Hl in Hl'. destruct k, k'; simpl in Hl'; congruence.
    - assert (s' = s) as -> by congruence.
      rewrite Hl in Hp', Hr', Hst'. destruct k; simpl in *; congruence. }
  assert (Hst1 : db w1 !! stateKey options = Some (EStr (state_name (target_state k)) None))
    by (rewrite Hst; destruct k; congruence).
  destruct (heartbeat_ok rt options None w1) as (w2 & E2 & D2);
    [apply (reliable_later rt w); assumption|now rewrite Hinst|now rewrite Hst1
    |exact Httl|now rewrite Hinst|].
  eexists w1, w2, _. split; [exact E1|]. split; [exact E2|].
  split; [rewrite D2; apply lookup_insert_eq|].
  unfold heartbeat_body. literal. rewrite Hst1. cbn [default from_option id].
  destruct k; [congruence|reflexivity..].
Qed.

End Observers.

(** ** The further properties on concrete stores *)

Definition billing : ServiceControllerOptions := {|
  serviceName := "billing";
  appType := "api";
  tags := None;
  meta := None;
  config := None
|}.

(** The store a registration of [orders] leaves on an empty one. *)
Definition registered : world := (register steady orders empty_world).1.

Lemma steady_reliable w : reliable steady w.
Proof. intros i _. reflexivity. Qed.

(** X1 on a shutdown: the services set is not touched. *)
Lemma operation_footprints_witness :
  db (shutdown steady orders None registered).1 !! servicesSetKey orders
    = db registered !! servicesSetKey orders.
Proof.
  apply (proj1 (proj2 (proj2 (proj2
           (operation_footprints steady orders (servicesSetKey orders)))))).
  - apply services_ne_state.
  - apply services_ne_instance.
  - apply services_ne_instances.
Defined.

(** X2 on a paused service told to stop. *)
Lemma state_key_stays_valid_witness :
  state_valid
    (db (waitIfPaused steady orders 3
           (with_db {[ stateKey orders := EStr "paused" None;
                       signalKey orders := EStr "stop" None ]})).1 !! stateKey orders).
Proof.
  destruct (state_key_stays_valid steady orders
              (with_db {[ stateKey orders := EStr "paused" None;
                          signalKey orders := EStr "stop" None ]}))
    as (_ & _ & _ & _ & H & _).
  - right. exists paused, None. vm_compute. reflexivity.
  - exact (H 3%nat).
Defined.

(** X3 on a first registration. *)
Lemma descriptor_always_expires_witness :
  expiring (db (register steady orders empty_world).1 !! instanceKey steady orders).
Proof.
  destruct (descriptor_always_expires steady orders empty_world) as (H & _).
  - vm_compute. exact I.
  - exact H.
Defined.

(** X4 on a store where another instance is already registered. *)
Lemma register_joins_sets_witness :
  exists w',
    register steady orders
      (with_db {[ instancesSetKey orders := ESet {[ "worker-0-17-aaaaaa" ]} ]})
      = (w', Ok tt) /\
    db w' !! servicesSetKey orders = Some (ESet ({[ "orders" ]} ∪ ∅)) /\
    db w' !! instancesSetKey orders =
      Some (ESet ({[ instanceId steady ]} ∪ {[ "worker-0-17-aaaaaa" ]})).
Proof.
  destruct (register_joins_sets steady orders
              (with_db {[ instancesSetKey orders := ESet {[ "worker-0-17-aaaaaa" ]} ]}))
    as (w' & E & S1 & S2).
  - apply steady_reliable.
  - vm_compute. exact I.
  - vm_compute. exact I.
  - reflexivity.
  - vm_compute. exact I.
  - vm_compute. exact I.
  - exists w'. split; [exact E|]. split; [exact S1|exact S2].
Defined.

(** X5 on an empty store. *)
Lemma register_initialises_state_witness :
  exists w' w'',
    register steady orders empty_world = (w', Ok tt) /\
    db w' !! stateKey orders = Some (EStr "running" None) /\
    getState steady orders w' = (w'', Ok running).
Proof.
  apply (register_initialises_state steady orders empty_world).
  - apply steady_reliable.
  - vm_compute. exact I.
  - vm_compute. exact I.
  - reflexivity.
  - vm_compute. exact I.
  - left. vm_compute. reflexivity.
Defined.

(** X6 on a registration that goes through and on one whose third command
    is lost. *)
Lemma register_hooks_iff_success_witness :
  (In (On "SIGINT" "SIGINT") (since empty_world (register steady orders empty_world).1) /\
   In (On "SIGTERM" "SIGTERM") (since empty_world (register steady orders empty_world).1)) /\
  ~ In (On "SIGINT" "SIGINT")
      (since empty_world (register (losing 2) orders empty_world).1).
Proof.
  split.
  - apply (proj2 (register_hooks_iff_success steady orders empty_world)).
    vm_compute. reflexivity.
  - intros Hin.
    destruct (proj1 (register_hooks_iff_success (losing 2) orders empty_world) _ _ Hin)
      as (Hok & _).
    vm_compute in Hok. discriminate Hok.
Defined.

(** X7 on a signal that is no signal. *)
Lemma applySignal_unrecognized_witness :
  exists w1,
    applySignal steady orders
      (with_db {[ stateKey orders := EStr "paused" None;
                  signalKey orders := EStr "reboot" None ]}) = (w1, Ok none) /\
    db w1 !! signalKey orders = None /\
    db w1 !! stateKey orders = Some (EStr "paused" None).
Proof.
  destruct (proj2 (applySignal_unrecognized steady orders
              (with_db {[ stateKey orders := EStr "paused" None;
                          signalKey orders := EStr "reboot" None ]})
              (steady_reliable _) ltac:(vm_compute; exact I)) "reboot" None)
    as (w1 & E & D & _).
  - vm_compute. reflexivity.
  - discriminate.
  - vm_compute. discriminate.
  - vm_compute. discriminate.
  - vm_compute. discriminate.
  - exists w1. split; [exact E|]. rewrite D.
    split; [apply lookup_delete_eq|vm_compute; reflexivity].
Defined.

(** X8 on a pause whose state write is lost, and on one whose deletion is
    lost. *)
Lemma applySignal_deletes_signal_last_witness :
  db (applySignal (losing 1) orders
        (with_db {[ signalKey orders := EStr "pause" None ]})).1 !! signalKey orders
    = Some (EStr "pause" None) /\
  db (applySignal (losing 2) orders
        (with_db {[ signalKey orders := EStr "pause" None ]})).1 !! stateKey orders
    = Some (EStr "paused" None).
Proof.
  split.
  - rewrite (proj1 (applySignal_deletes_signal_last (losing 1) orders
                      (with_db {[ signalKey orders := EStr "pause" None ]}))).
    + vm_compute. reflexivity.
    + intros [ok Hin]. vm_compute in Hin. intuition discriminate.
  - destruct (proj2 (applySignal_deletes_signal_last (losing 2) orders
                       (with_db {[ signalKey orders := EStr "pause" None ]})))
      as [_ H].
    + exists false. vm_compute. auto.
    + apply (H "pause" None pause); [vm_compute; reflexivity|discriminate|reflexivity].
Defined.

(** X9 on a paused service given two iterations. *)
Lemma waitIfPaused_keeps_waiting_witness :
  exists w',
    waitIfPaused steady orders 2 (with_db {[ stateKey orders := EStr "paused" None ]})
      = (w', Pending) /\
    List.filter is_sleep
      (since (with_db {[ stateKey orders := EStr "paused" None ]}) w')
      = [Sleep 1000; Sleep 1000] /\
    descriptor_paused steady orders (db w').
Proof.
  destruct (waitIfPaused_keeps_waiting steady orders 2
              (with_db {[ stateKey orders := EStr "paused" None ]}) None)
    as (w' & E & Hs & _ & _ & D).
  - exact codec_objects_steady.
  - reflexivity.
  - apply steady_reliable.
  - vm_compute. reflexivity.
  - vm_compute. exact I.
  - vm_compute. reflexivity.
  - vm_compute. exact I.
  - vm_compute. discriminate.
  - exists w'. split; [exact E|]. split; [exact Hs|]. apply D. discriminate.
Defined.

(** X10 on a paused service whose operator wrote RESUME. *)
Lemma pause_loop_leaves_on_signal_witness :
  exists w',
    pause_loop steady orders 1
      (with_db {[ stateKey orders := EStr "paused" None;
                  signalKey orders := EStr "RESUME" None ]}) = (w', Ok tt) /\
    db w' !! stateKey orders = Some (EStr "running" None) /\
    db w' !! signalKey orders = None.
Proof.
  destruct (pause_loop_leaves_on_signal steady orders 0
              (with_db {[ stateKey orders := EStr "paused" None;
                          signalKey orders := EStr "RESUME" None ]})
              "RESUME" None resume)
    as (w' & E & S & G & _).
  - apply steady_reliable.
  - vm_compute. reflexivity.
  - reflexivity.
  - now left.
  - vm_compute. exact I.
  - reflexivity.
  - vm_compute. discriminate.
  - exists w'. auto.
Defined.

(** X11 on a store from which the descriptor has expired. *)
Lemma heartbeat_recreates_descriptor_witness :
  exists w',
    heartbeat steady orders None (with_db {[ stateKey orders := EStr "paused" None ]})
      = (w', Ok tt) /\
    db w' !! instanceKey steady orders =
      Some (EStr (Codec.stringify
                    (JObj (fresh_descriptor steady orders "2024-05-01T10:00:00.000Z" paused)))
              (Some 30)).
Proof.
  destruct (heartbeat_recreates_descriptor steady orders None
              (with_db {[ stateKey orders := EStr "paused" None ]}))
    as (w' & E & D).
  - apply steady_reliable.
  - vm_compute. exact I.
  - vm_compute. exact I.
  - reflexivity.
  - left. vm_compute. reflexivity.
  - exists w'. split; [exact E|]. rewrite D. vm_compute. reflexivity.
Defined.

(** X12 on a descriptor in which an outsider changed the id and the tags
    and added a field. *)
Lemma heartbeat_merges_descriptor_witness :
  exists w' body,
    heartbeat steady orders (Some paused)
      (with_db {[ instanceKey steady orders :=
                    EStr (Codec.stringify
                            (JObj [ ("instanceId", JStr "someone-else");
                                    ("tags", JArr [JStr "green"]);
                                    ("note", JStr "kept") ]))
                         (Some 30) ]}) = (w', Ok tt) /\
    obj_get "instanceId" body = Some (JStr "worker-1-4242-k3x9qa") /\
    obj_get "status" body = Some (JStr "paused") /\
    obj_get "startedAt" body = Some (JStr "2024-05-01T10:00:00.000Z") /\
    obj_get "tags" body = Some (JArr [JStr "eu"; JStr "blue"]) /\
    obj_get "note" body = Some (JStr "kept").
Proof.
  destruct (heartbeat_merges_descriptor steady orders (Some paused)
              (with_db {[ instanceKey steady orders :=
                    EStr (Codec.stringify
                            (JObj [ ("instanceId", JStr "someone-else");
                                    ("tags", JArr [JStr "green"]);
                                    ("note", JStr "kept") ]))
                         (Some 30) ]})
              [ ("instanceId", JStr "someone-else");
                ("tags", JArr [JStr "green"]);
                ("note", JStr "kept") ])
    as (w' & body & E & _ & _ & _ & Hid & _ & _ & _ & Hst & Hstart & Htags & _ & Hother).
  - apply steady_reliable.
  - vm_compute. exact I.
  - vm_compute. exact I.
  - reflexivity.
  - vm_compute. reflexivity.
  - exists w', body. split; [exact E|]. split; [exact Hid|]. split; [exact Hst|].
    split; [exact Hstart|]. split; [exact Htags|].
    rewrite Hother; [reflexivity|].
    unfold heartbeat_fields. cbn [In]. intuition discriminate.
Defined.

(** X13 on a descriptor overwritten with the text null. *)
Lemma null_descriptor_not_recovered_witness :
  (exists w',
     heartbeat steady orders None
       (with_db {[ instanceKey steady orders := EStr "null" (Some 30) ]})
       = (w', Throw TypeError)) /\
  (exists w',
     shutdown steady orders None
       (with_db {[ instanceKey steady orders := EStr "null" (Some 30) ]}) = (w', Ok tt) /\
     db w' !! instanceKey steady orders = Some (EStr "null" (Some 30))).
Proof.
  destruct (null_descriptor_not_recovered steady orders
              (with_db {[ instanceKey steady orders := EStr "null" (Some 30) ]})
              "null" (Some 30)) as [Hh Hs].
  - apply steady_reliable.
  - vm_compute. reflexivity.
  - discriminate.
  - vm_compute. reflexivity.
  - split.
    + destruct (Hh None) as (w' & E & _). now exists w'.
    + destruct (Hs None) as (w' & E & D & _). exists w'. split; [exact E|].
      rewrite D. vm_compute. reflexivity.
Defined.

(** X14 on a registered instance shutting down, seen from another process. *)
Lemma shutdown_stops_every_instance_witness :
  exists w' w'',
    shutdown steady orders None registered = (w', Ok tt) /\
    shouldStop (losing 0) orders w' = (w'', Ok true).
Proof.
  destruct (shutdown_stops_every_instance steady orders None registered)
    as (w' & E & H).
  - apply steady_reliable.
  - vm_compute. exact I.
  - vm_compute. exact I.
  - vm_compute. discriminate.
  - vm_compute. exact I.
  - vm_compute. reflexivity.
  - destruct (H (losing 0)) as (w'' & E').
    + assert (Hw : (0 < issued w')%nat).
      { replace w' with (shutdown steady orders None registered).1 by now rewrite E.
        vm_compute. lia. }
      intros i Hi. simpl. apply Nat.eqb_neq. lia.
    + exists w', w''. split; [exact E|exact E'].
Defined.

(** X15 on a first registration followed by a heartbeat. *)
Lemma heartbeat_keeps_start_time_witness :
  exists w1 w2 body,
    register steady orders empty_world = (w1, Ok tt) /\
    heartbeat steady orders None w1 = (w2, Ok tt) /\
    db w2 !! instanceKey steady orders =
      Some (EStr (Codec.stringify (JObj body)) (Some 30)) /\
    obj_get "startedAt" body = Some (JStr "2024-05-01T10:00:00.000Z") /\
    obj_get "lastSeen" body = Some (JStr "2024-05-01T10:00:01.000Z").
Proof.
  destruct (heartbeat_keeps_start_time steady orders None empty_world)
    as (w1 & w2 & body & E1 & E2 & D & Hs & Hl).
  - apply steady_reliable.
  - vm_compute. exact I.
  - vm_compute. exact I.
  - reflexivity.
  - vm_compute. exact I.
  - vm_compute. exact I.
  - vm_compute. discriminate.
  - vm_compute. reflexivity.
  - exists w1, w2, body. auto.
Defined.

(** X16 on an empty store. *)
Lemma register_then_shutdown_witness :
  exists w1 w2,
    register steady orders empty_world = (w1, Ok tt) /\
    shutdown steady orders (Some "SIGTERM") w1 = (w2, Ok tt) /\
    members_of (db w2 !! instancesSetKey orders) = ∅ ∖ {[ instanceId steady ]} /\
    ("orders" ∈ members_of (db w2 !! servicesSetKey orders)).
Proof.
  destruct (register_then_shutdown steady orders (Some "SIGTERM") empty_world)
    as (w1 & w2 & body & E1 & E2 & Hi & Hs & _).
  - exact codec_objects_steady.
  - apply steady_reliable.
  - vm_compute. exact I.
  - vm_compute. exact I.
  - reflexivity.
  - vm_compute. exact I.
  - vm_compute. exact I.
  - exists w1, w2. auto.
Defined.

(** X18 on the services orders and billing. *)
Lemma services_share_only_the_services_set_witness :
  servicesSetKey orders = servicesSetKey billing /\
  stateKey orders <> stateKey billing /\
  instanceKey steady orders <> instanceKey steady billing.
Proof.
  destruct (services_share_only_the_services_set steady steady orders billing)
    as [Hs Hd]; [reflexivity|reflexivity|reflexivity|discriminate|].
  split; [exact Hs|]. split; apply Hd; cbn [In]; auto 10.
Defined.

(** X19 on a shutdown whose second command is lost. *)
Lemma shutdown_marks_stopping_first_witness :
  db (shutdown (losing 1) orders None (with_db (db registered))).1 !! stateKey orders
    = Some (EStr "stopping" None) /\
  (instanceId steady ∈
     members_of (db (shutdown (losing 1) orders None (with_db (db registered))).1
                   !! instancesSetKey orders)).
Proof.
  split.
  - apply (shutdown_marks_stopping_first (losing 1) orders None
             (with_db (db registered))).
    reflexivity.
  - vm_compute. reflexivity.
Defined.

(** X20 on a running service told to pause. *)
Lemma heartbeat_reports_applied_signal_witness :
  exists w1 w2 body,
    applySignal steady orders (with_db {[ signalKey orders := EStr "Pause" None ]})
      = (w1, Ok pause) /\
    heartbeat steady orders None w1 = (w2, Ok tt) /\
    obj_get "status" body = Some (JStr "paused") /\
    db w2 !! instanceKey steady orders =
      Some (EStr (Codec.stringify (JObj body)) (Some 30)).
Proof.
  destruct (heartbeat_reports_applied_signal steady orders
              (with_db {[ signalKey orders := EStr "Pause" None ]}) "Pause" None pause)
    as (w1 & w2 & body & E1 & E2 & D & S).
  - apply steady_reliable.
  - vm_compute. reflexivity.
  - discriminate.
  - reflexivity.
  - vm_compute. exact I.
  - reflexivity.
  - vm_compute. discriminate.
  - exists w1, w2, body. auto.
Defined.
